(** * stratis-cli: the D-Bus Manager wrapper, the command-line grammar and
      the error-code translation layer.

    Shallow embedding of
    - [src/stratis_cli/_dbus/_manager.py]   (class [Manager]),
    - [src/stratis_cli/_parser/_parser.py]  (the argparse grammar),
    - [tests/integration/logical/test_list.py] (the listing scenarios).

    Python objects live in a client-side heap, remote calls go through a
    state-and-exception monad that records every call sent on the bus. *)

From Stdlib Require Import ZArith Ascii String.
From stdpp Require Import gmap strings list.

Set Warnings "-register-all".

Local Open Scope Z_scope.
Local Open Scope string_scope.
Local Open Scope list_scope.

(** ** Values exchanged with the bus *)

(** The dynamically typed values the transport carries: strings, integers,
    sequences and tuples thereof; [VFunc] is a function object, known by its
    qualified name (the [func=] targets of the parser). *)
Inductive PyVal : Type :=
  | VNone
  | VBool (b : bool)
  | VInt (z : Z)
  | VStr (s : string)
  | VList (l : list PyVal)
  | VTuple (l : list PyVal)
  | VFunc (qualname : string).

(** One method call as it is put on the bus: the remote object, the method
    name, the positional arguments in order, and the [dbus_interface]
    keyword argument. *)
Record Call : Type := MkCall {
  c_object : string;
  c_method : string;
  c_args : list PyVal;
  c_interface : string
}.

(** Exceptions that can travel up the Python stack. *)
Inductive Exn : Type :=
  | DBusException (msg : string)
  | StratisCliRuntimeError (rc : Z) (msg : string)
  | StratisCliUsageError (msg : string)
  | AttributeError (msg : string)
  | ValueError (msg : string).

(** What the transport hands back for one call. *)
Inductive Reply : Type :=
  | Returned (v : PyVal)
  | Failed (e : Exn).

(** The daemon is an external collaborator: any state type with a step
    function answering one call at a time. *)
Record Daemon : Type := MkDaemon {
  dstate : Type;
  dstep : Call -> dstate -> Reply * dstate
}.

(** ** Client-side heap and the world *)

Definition loc := positive.

(** An instance of class [Manager]: its only attribute is [_dbus_object],
    a proxy for the remote object at the given bus path. *)
Record ManagerObj : Type := MkManagerObj {
  _dbus_object : string
}.

(** The state of one client process and of what it talks to: the objects
    it has allocated, the process-wide error-code catalog (absent until
    first used), every call sent so far, and the daemon. *)
Record World (D : Daemon) : Type := MkWorld {
  heap : gmap loc ManagerObj;
  catalog : option (gmap string (Z * string));
  trace : list Call;
  remote : dstate D
}.
Arguments MkWorld {D} _ _ _ _.
Arguments heap {D} _.
Arguments catalog {D} _.
Arguments trace {D} _.
Arguments remote {D} _.

(** ** The monad of Python computations *)

Inductive Outcome (A : Type) : Type :=
  | Ok (a : A)
  | Raise (e : Exn).
Arguments Ok {A} _.
Arguments Raise {A} _.

Definition Py (D : Daemon) (A : Type) : Type := World D -> Outcome A * World D.

Definition ret {D A} (a : A) : Py D A := fun w => (Ok a, w).

Definition raise {D A} (e : Exn) : Py D A := fun w => (Raise e, w).

Definition bind {D A B} (m : Py D A) (k : A -> Py D B) : Py D B :=
  fun w => match m w with
           | (Ok a, w') => k a w'
           | (Raise e, w') => (Raise e, w')
           end.

#[global] Instance py_ret {D} : MRet (Py D) := fun A a => ret a.
#[global] Instance py_bind {D} : MBind (Py D) := fun A B k m => bind m k.

(** [obj.method(args..., dbus_interface=iface)] on a proxy object: the call is
    sent (and recorded), the daemon steps, the reply is returned or raised. *)
Definition proxy_call {D} (obj meth : string) (args : list PyVal)
    (iface : string) : Py D PyVal :=
  fun w =>
    let c := MkCall obj meth args iface in
    let '(r, d') := dstep D c (remote w) in
    let w' := MkWorld (heap w) (catalog w) (trace w ++ [c]) d' in
    match r with
    | Returned v => (Ok v, w')
    | Failed e => (Raise e, w')
    end.

(** Reading [self._dbus_object]. *)
Definition get_dbus_object {D} (self : loc) : Py D string :=
  fun w => match heap w !! self with
           | Some o => (Ok (_dbus_object o), w)
           | None => (Raise (AttributeError "_dbus_object"), w)
           end.

(** Modelled from the spec: class [Properties] of [_dbus/_dbus.py], which
    is not among the sources.  The spec gives it as
    [getProperty(interfaceName, propertyName)], a read-only property fetch
    on the remote object with the blocking and failure behaviour of a method
    call; on D-Bus that is method [Get] of the standard properties
    interface. *)
Module Properties.

Definition _INTERFACE_NAME : string := "org.freedesktop.DBus.Properties".

Definition Get {D} (dbus_object interface_name property_name : string)
    : Py D PyVal :=
  proxy_call dbus_object "Get" [VStr interface_name; VStr property_name]
             _INTERFACE_NAME.

End Properties.

(** ** class Manager  (_dbus/_manager.py) *)

Module Manager.

Definition _INTERFACE_NAME : string := "org.storage.stratis1.Manager".

(** [__init__]: allocate the instance and store the proxy. *)
Definition __init__ {D} (self : loc) (dbus_object : string) : Py D unit :=
  fun w => (Ok tt,
            MkWorld (<[self := MkManagerObj dbus_object]> (heap w))
                    (catalog w) (trace w) (remote w)).

Definition CreatePool {D} (self : loc) (pool_name devices redundancy : PyVal)
    : Py D PyVal :=
  o ← get_dbus_object self;
  proxy_call o "CreatePool" [pool_name; devices; redundancy] _INTERFACE_NAME.

Definition DestroyPool {D} (self : loc) (pool_name : PyVal) : Py D PyVal :=
  o ← get_dbus_object self;
  proxy_call o "DestroyPool" [pool_name] _INTERFACE_NAME.

Definition GetCacheObjectPath {D} (self : loc) (pool : PyVal) : Py D PyVal :=
  o ← get_dbus_object self;
  proxy_call o "GetCacheObjectPath" [pool] _INTERFACE_NAME.

Definition GetErrorCodes {D} (self : loc) : Py D PyVal :=
  o ← get_dbus_object self;
  proxy_call o "GetErrorCodes" [] _INTERFACE_NAME.

Definition GetPoolObjectPath {D} (self : loc) (pool_name : PyVal)
    : Py D PyVal :=
  o ← get_dbus_object self;
  proxy_call o "GetPoolObjectPath" [pool_name] _INTERFACE_NAME.

Definition GetRaidLevels {D} (self : loc) : Py D PyVal :=
  o ← get_dbus_object self;
  proxy_call o "GetRaidLevels" [] _INTERFACE_NAME.

Definition GetVolumeObjectPath {D} (self : loc) (pool_name volume_name : PyVal)
    : Py D PyVal :=
  o ← get_dbus_object self;
  proxy_call o "GetVolumeObjectPath" [pool_name; volume_name] _INTERFACE_NAME.

Definition ListPools {D} (self : loc) : Py D PyVal :=
  o ← get_dbus_object self;
  proxy_call o "ListPools" [] _INTERFACE_NAME.

Definition Version {D} (self : loc) : Py D PyVal :=
  o ← get_dbus_object self;
  Properties.Get o _INTERFACE_NAME "Version".

Definition LogLevel {D} (self : loc) : Py D PyVal :=
  o ← get_dbus_object self;
  Properties.Get o _INTERFACE_NAME "LogLevel".

End Manager.

(** The eight methods of [Manager] with their actual arguments, and the two
    properties: a uniform way to name "some use of the wrapper". *)
Inductive ManagerOp : Type :=
  | OpCreatePool (pool_name devices redundancy : PyVal)
  | OpDestroyPool (pool_name : PyVal)
  | OpGetCacheObjectPath (pool : PyVal)
  | OpGetErrorCodes
  | OpGetPoolObjectPath (pool_name : PyVal)
  | OpGetRaidLevels
  | OpGetVolumeObjectPath (pool_name volume_name : PyVal)
  | OpListPools.

Inductive ManagerMember : Type :=
  | Method (op : ManagerOp)
  | PropVersion
  | PropLogLevel.

(** The name under which an operation is known, and the arguments the
    caller gave, in the caller's order. *)
Definition op_name (op : ManagerOp) : string :=
  match op with
  | OpCreatePool _ _ _ => "CreatePool"
  | OpDestroyPool _ => "DestroyPool"
  | OpGetCacheObjectPath _ => "GetCacheObjectPath"
  | OpGetErrorCodes => "GetErrorCodes"
  | OpGetPoolObjectPath _ => "GetPoolObjectPath"
  | OpGetRaidLevels => "GetRaidLevels"
  | OpGetVolumeObjectPath _ _ => "GetVolumeObjectPath"
  | OpListPools => "ListPools"
  end.

Definition op_args (op : ManagerOp) : list PyVal :=
  match op with
  | OpCreatePool n d r => [n; d; r]
  | OpDestroyPool n => [n]
  | OpGetCacheObjectPath p => [p]
  | OpGetErrorCodes => []
  | OpGetPoolObjectPath n => [n]
  | OpGetRaidLevels => []
  | OpGetVolumeObjectPath p v => [p; v]
  | OpListPools => []
  end.

(** Calling the method of the wrapper that the operation names. *)
Definition call_op {D} (self : loc) (op : ManagerOp) : Py D PyVal :=
  match op with
  | OpCreatePool n d r => Manager.CreatePool self n d r
  | OpDestroyPool n => Manager.DestroyPool self n
  | OpGetCacheObjectPath p => Manager.GetCacheObjectPath self p
  | OpGetErrorCodes => Manager.GetErrorCodes self
  | OpGetPoolObjectPath n => Manager.GetPoolObjectPath self n
  | OpGetRaidLevels => Manager.GetRaidLevels self
  | OpGetVolumeObjectPath p v => Manager.GetVolumeObjectPath self p v
  | OpListPools => Manager.ListPools self
  end.

Definition use_member {D} (self : loc) (m : ManagerMember) : Py D PyVal :=
  match m with
  | Method op => call_op self op
  | PropVersion => Manager.Version self
  | PropLogLevel => Manager.LogLevel self
  end.

(** A program that uses the wrapper any number of times, in any order. *)
Fixpoint use_members {D} (self : loc) (ms : list ManagerMember)
    : World D -> World D :=
  fun w => match ms with
           | [] => w
           | m :: ms' => use_members self ms' (snd (use_member self m w))
           end.

(** The transport's reply as the outcome of the Python call expression. *)
Definition outcome_of_reply (r : Reply) : Outcome PyVal :=
  match r with
  | Returned v => Ok v
  | Failed e => Raise e
  end.

(** ** The grammar objects of argparse, as [_parser.py] builds them *)

(** [action=] of [add_argument]. *)
Inductive ArgAction : Type :=
  | store
  | store_true
  | version_action (text : string)
  | help_action.

(** [nargs=]: absent (exactly one string) or ['+'] (one or more). *)
Inductive Nargs : Type :=
  | NargsNone
  | NargsPlus.

(** One argument declaration.  A positional has no option strings. *)
Record Argument : Type := MkArgument {
  option_strings : list string;
  dest : string;
  action : ArgAction;
  nargs : Nargs;
  choices : option (list string);
  default : option PyVal;   (* [None]: argparse.SUPPRESS, nothing is stored *)
  help : string;
  metavar : option string
}.

Record MutexGroup : Type := MkMutexGroup {
  required : bool;
  members : list string     (* the dests of the group's arguments *)
}.

Inductive ArgumentParser : Type := MkParser {
  prog : string;
  description : string;
  arguments : list Argument;
  mutex_groups : list MutexGroup;
  defaults : list (string * PyVal);
  subparsers : option (string * string * list (string * ArgumentParser))
}.

(** [dest] of an optional: the option string without its leading dashes,
    with every inner dash turned into an underscore. *)
Fixpoint strip_dashes (s : string) : string :=
  match s with
  | String ("-")%char s' => strip_dashes s'
  | _ => s
  end.

Fixpoint dash_to_underscore (s : string) : string :=
  match s with
  | EmptyString => EmptyString
  | String ("-")%char s' => String ("_")%char (dash_to_underscore s')
  | String c s' => String c (dash_to_underscore s')
  end.

Definition dest_of_option (o : string) : string :=
  dash_to_underscore (strip_dashes o).

(** [argparse.ArgumentParser(description=..., prog=...)]: a fresh parser
    already knows [-h]/[--help]. *)
Definition help_argument : Argument :=
  MkArgument ["-h"; "--help"] "help" help_action NargsNone None None
             "show this help message and exit" None.

Definition new_parser (prog_ description_ : string) : ArgumentParser :=
  MkParser prog_ description_ [help_argument] [] [] None.

(** The option strings a parser has registered so far. *)
Definition known_option_strings (p : ArgumentParser) : list string :=
  flat_map option_strings (arguments p).

(** [_check_conflict]: does the parser already know one of the option
    strings of the new argument?  A positional has none and never does. *)
Definition conflicting (a : Argument) (p : ArgumentParser) : bool :=
  existsb (fun o => existsb (String.eqb o) (known_option_strings p))
          (option_strings a).

(** [parser.add_argument(...)].  With the default conflict handler an option
    string the parser already knows is an ArgumentError ([None]) and the
    parser is left without the argument. *)
Definition add_argument (a : Argument) (p : ArgumentParser)
    : option ArgumentParser :=
  if conflicting a p then None
  else Some (MkParser (prog p) (description p) (arguments p ++ [a])
                      (mutex_groups p) (defaults p) (subparsers p)).

(** [parser.add_mutually_exclusive_group(required=r)]: the group is known by
    its index in the parser. *)
Definition add_mutually_exclusive_group (r : bool) (p : ArgumentParser)
    : nat * ArgumentParser :=
  (length (mutex_groups p),
   MkParser (prog p) (description p) (arguments p)
            (mutex_groups p ++ [MkMutexGroup r []]) (defaults p) (subparsers p)).

(** [group.add_argument(...)]: the argument joins the parser and the group.
    A positional is refused (ValueError: mutually exclusive arguments must
    be optional), and so is an option string the parser already knows
    (ArgumentError); both are [None]. *)
Definition group_add_argument (g : nat) (a : Argument) (p : ArgumentParser)
    : option ArgumentParser :=
  match option_strings a with
  | [] => None
  | _ :: _ =>
      if conflicting a p then None
      else Some (MkParser (prog p) (description p) (arguments p ++ [a])
                   (alter (fun gr => MkMutexGroup (required gr)
                                                  (members gr ++ [dest a]))
                          g (mutex_groups p))
                   (defaults p) (subparsers p))
  end.

(** [parser.set_defaults(key=v)]: a later setting of the same key wins, and
    an argument stored under that name takes the value as its default. *)
Definition set_defaults (key : string) (v : PyVal) (p : ArgumentParser)
    : ArgumentParser :=
  MkParser (prog p) (description p)
           (map (fun a => if String.eqb (dest a) key
                          then MkArgument (option_strings a) (dest a) (action a)
                                 (nargs a) (choices a) (Some v) (help a)
                                 (metavar a)
                          else a) (arguments p))
           (mutex_groups p)
           (filter (fun kv => kv.1 <> key) (defaults p) ++ [(key, v)])
           (subparsers p).

(** [parser.add_subparsers(dest=d, title=t)]. *)
Definition add_subparsers (d t : string) (p : ArgumentParser) : ArgumentParser :=
  MkParser (prog p) (description p) (arguments p) (mutex_groups p)
           (defaults p) (Some (d, t, [])).

(** [subparsers.add_parser(name, description=...)] followed by the builder
    working on the new parser in place: the subcommand is registered with the
    parser the builder leaves behind.  An exception of the builder ([None])
    goes up to the caller. *)
Definition add_parser (name description_ : string)
    (build : ArgumentParser -> option ArgumentParser) (p : ArgumentParser)
    : option ArgumentParser :=
  match subparsers p with
  | Some (d, t, subs) =>
      sub ← build (new_parser (prog p +:+ " " +:+ name) description_);
      Some (MkParser (prog p) (description p) (arguments p) (mutex_groups p)
                     (defaults p) (Some (d, t, (subs ++ [(name, sub)])%list)))
  | None => Some p
  end.

(** ** _parser/_parser.py *)

(** A builder fills the parser it is handed, or raises ([None]). *)
Definition Builder : Type := ArgumentParser -> option ArgumentParser.

(** The parser a builder leaves behind when it returns.  It is used only
    on parsers on which the builder is shown to return; where the builder
    raises there is no such parser, and [built] stands for the one handed
    over. *)
Definition built (build : Builder) (p : ArgumentParser) : ArgumentParser :=
  match build p with
  | Some p' => p'
  | None => p
  end.

(** An optional flag with [action='store_true'] and the given default. *)
Definition flag_argument (o : string) (d : bool) (h : string) : Argument :=
  MkArgument [o] (dest_of_option o) store_true NargsNone None
             (Some (VBool d)) h None.

(** A positional with [action='store']. *)
Definition positional_argument (n h : string) (m : option string) (k : Nargs)
    : Argument :=
  MkArgument [] n store k None (Some VNone) h m.

Section Parser.

(** [__version__] of [_version.py] and the two builders of [_physical.py]
    and [_logical.py] are imported by the module and are not among the
    sources. *)
Variable __version__ : string.
Variable build_physical_parser : Builder.
Variable build_logical_parser : Builder.

Definition build_stratisd_parser (parser : ArgumentParser)
    : option ArgumentParser :=
  let '(group, parser) := add_mutually_exclusive_group true parser in
  parser ←
    group_add_argument group
      (flag_argument "--log-level" false "log level of stratisd daemon")
      parser;
  parser ←
    group_add_argument group
      (flag_argument "--redundancy" false
         "redundancy designations understood by stratisd daemon")
      parser;
  parser ←
    group_add_argument group
      (flag_argument "--version" false "version of stratisd daemon")
      parser;
  Some (set_defaults "func" (VFunc "StratisActions.dispatch") parser).

Definition build_list_parser (parser : ArgumentParser)
    : option ArgumentParser :=
  Some (set_defaults "func" (VFunc "TopActions.list_pools") parser).

Definition build_create_parser (parser : ArgumentParser)
    : option ArgumentParser :=
  parser ←
    add_argument
      (positional_argument "name" "name to assign to pool" None NargsNone)
      parser;
  parser ←
    add_argument
      (positional_argument "device" "make device D a member of this pool"
         (Some "D") NargsPlus)
      parser;
  parser ←
    add_argument
      (MkArgument ["--redundancy"] (dest_of_option "--redundancy") store
         NargsNone (Some ["none"]) (Some (VStr "none"))
         "redundancy selection for this pool" None)
      parser;
  Some (set_defaults "func" (VFunc "TopActions.create_pool") parser).

Definition build_destroy_parser (parser : ArgumentParser)
    : option ArgumentParser :=
  parser ←
    add_argument (positional_argument "name" "name of pool" None NargsNone)
                 parser;
  Some (set_defaults "func" (VFunc "TopActions.destroy_pool") parser).

Definition build_rename_parser (parser : ArgumentParser)
    : option ArgumentParser :=
  parser ←
    add_argument
      (positional_argument "current" "current name of pool" None NargsNone)
      parser;
  parser ←
    add_argument (positional_argument "new" "desired name" None NargsNone)
                 parser;
  Some (set_defaults "func" (VFunc "TopActions.rename_pool") parser).

(** The module-level dictionary. *)
Definition _SUBPARSER_TABLE : gmap string Builder :=
  {[ "blockdev" := build_physical_parser;
     "create" := build_create_parser;
     "destroy" := build_destroy_parser;
     "list" := build_list_parser;
     "filesystem" := build_logical_parser;
     "stratisd" := build_stratisd_parser;
     "rename" := build_rename_parser ]}.

(** One registration step of [gen_parser]:
    [subparser_table[name] = subparsers.add_parser(name, description=d)]
    and then [_SUBPARSER_TABLE[name](subparser_table[name])].  The global
    table is read, never written; a missing key is a [KeyError], and an
    exception of the builder ends [gen_parser] as well. *)
Definition register (name d : string)
    (st : option ArgumentParser * gmap string Builder)
    : option ArgumentParser * gmap string Builder :=
  match st with
  | (Some parser, table) =>
      match table !! name with
      | Some build => (add_parser name d build parser, table)
      | None => (None, table)
      end
  | (None, table) => (None, table)
  end.

(** [gen_parser()], run with the module's global table in the given
    state; it returns the parser and the table it leaves behind. *)
Definition gen_parser (table : gmap string Builder)
    : option ArgumentParser * gmap string Builder :=
  let parser := new_parser "stratis" "Stratis Storage Manager" in
  let parser :=
    add_argument
      (MkArgument ["--version"] "version" (version_action __version__)
         NargsNone None None "show program's version number and exit" None)
      parser in
  let parser := add_subparsers "subparser_name" "subcommands" <$> parser in
  let st := (parser, table) in
  let st := register "blockdev"
              "Administer Blockdev Aspects of Specified Pool" st in
  let st := register "create" "Create New Stratis Pool" st in
  let st := register "destroy" "Destroy Existing Stratis Pool" st in
  let st := register "filesystem"
              "Administer Filesystems Aspects of Specified Pool" st in
  let st := register "list" "List Stratis Pools" st in
  let st := register "stratisd" "Information about Stratisd" st in
  let st := register "rename" "Rename a Pool" st in
  st.

End Parser.

(** ** How argparse reads a command line

    The generic parsing library is an external collaborator.  This is its
    [parse_args] for the grammars above: long options given exactly, by a
    unique prefix or as [--opt=value]; [-h]; positionals taking one string
    or one-or-more; mutually exclusive groups; [choices]; defaults.  Command
    lines with the [--] separator, with other single-dash options, or for a
    parser that has subcommands are outside what is described here
    ([parse_args] answers [None]). *)

Inductive ParseResult : Type :=
  | ParseOk (ns : gmap string PyVal)
  | ParseError (why : string)      (* usage message, exit status 2 *)
  | ParseExit (text : string).     (* help or version printed, exit status 0 *)

(** A command-line string after classification. *)
Inductive Tok : Type :=
  | TPos (s : string)
  | TOpt (a : option Argument) (explicit : option string) (raw : string).

Fixpoint contains_char (c : ascii) (s : string) : bool :=
  match s with
  | EmptyString => false
  | String c' s' => if Ascii.eqb c c' then true else contains_char c s'
  end.

(** [s.split('=', 1)] for a string that may contain ['=']. *)
Fixpoint split_eq (s : string) : string * option string :=
  match s with
  | EmptyString => (EmptyString, None)
  | String c s' =>
      if Ascii.eqb c ("=")%char then (EmptyString, Some s')
      else let '(o, e) := split_eq s' in (String c o, e)
  end.

Definition find_option (p : ArgumentParser) (o : string) : option Argument :=
  List.find (fun a => bool_decide (o ∈ option_strings a)) (arguments p).

(** Every (argument, option string) whose option string starts with [pre]. *)
Definition option_tuples (p : ArgumentParser) (pre : string)
    : list Argument :=
  flat_map (fun a => map (fun _ => a)
                       (List.filter (String.prefix pre) (option_strings a)))
           (arguments p).

(** [_parse_optional]: the outer [option] is [None] outside the model, the
    inner result is an error for an ambiguous abbreviation. *)
Definition classify (p : ArgumentParser) (s : string)
    : option (string + Tok) :=
  match s with
  | EmptyString => Some (inr (TPos s))
  | String c _ =>
      if negb (Ascii.eqb c ("-")%char) then Some (inr (TPos s))
      else if String.eqb s "--" then None
      else match find_option p s with
      | Some a => Some (inr (TOpt (Some a) None s))
      | None =>
          if String.eqb s "-" then Some (inr (TPos s))
          else if negb (String.prefix "--" s) then None
          else
            let '(o, e) := split_eq s in
            match (if e is Some _ then find_option p o else None) with
            | Some a => Some (inr (TOpt (Some a) e s))
            | None =>
                match option_tuples p o with
                | [a] => Some (inr (TOpt (Some a) e s))
                | _ :: _ :: _ => Some (inl ("ambiguous option: " +:+ s))
                | [] =>
                    if contains_char (" ")%char s then Some (inr (TPos s))
                    else Some (inr (TOpt None None s))
                end
            end
      end
  end.

(** The classified command line, cut into option strings and maximal runs
    of positional strings. *)
Inductive Seg : Type :=
  | SegRun (run : list string)
  | SegOpt (a : option Argument) (explicit : option string) (raw : string).

Fixpoint segments (ts : list Tok) : list Seg :=
  match ts with
  | [] => []
  | TPos s :: ts' =>
      match segments ts' with
      | SegRun r :: segs => SegRun (s :: r) :: segs
      | segs => SegRun [s] :: segs
      end
  | TOpt a e raw :: ts' => SegOpt a e raw :: segments ts'
  end.

(** The parser's state while it consumes the command line. *)
Record PState : Type := MkPState {
  ns : gmap string PyVal;
  seen : list string;               (* dests of the actions taken *)
  seen_non_default : list string;
  pending : list Argument;          (* positionals not yet matched *)
  extras : list string
}.

Definition is_positional (a : Argument) : bool :=
  bool_decide (option_strings a = []).

(** The other members of the mutually exclusive groups [d] belongs to. *)
Definition conflicts (p : ArgumentParser) (d : string) : list string :=
  flat_map (fun g => if bool_decide (d ∈ members g)
                     then List.filter (fun m => negb (String.eqb m d)) (members g)
                     else [])
           (mutex_groups p).

(** [take_action]: check the values, check the exclusive groups, then let
    the action store its value, or print and exit. *)
Definition take_action (p : ArgumentParser) (a : Argument)
    (values : list string) (st : PState) : PState + ParseResult :=
  if negb (forallb (fun v => match choices a with
                             | Some cs => bool_decide (v ∈ cs)
                             | None => true
                             end) values)
  then inr (ParseError ("invalid choice for " +:+ dest a))
  else if existsb (fun m => bool_decide (m ∈ seen_non_default st))
                  (conflicts p (dest a))
  then inr (ParseError ("not allowed with argument " +:+ dest a))
  else
    let st' v := MkPState (<[dest a := v]> (ns st)) (dest a :: seen st)
                          (dest a :: seen_non_default st) (pending st)
                          (extras st) in
    match action a with
    | store =>
        match nargs a, values with
        | NargsNone, [v] => inl (st' (VStr v))
        | NargsNone, _ => inr (ParseError ("expected one argument: " +:+ dest a))
        | NargsPlus, _ => inl (st' (VList (map VStr values)))
        end
    | store_true => inl (st' (VBool true))
    | version_action text => inr (ParseExit text)
    | help_action => inr (ParseExit (description p))
    end.

(** How the strings of one run are shared among the positionals chosen for
    it: a one-string positional takes one, the first one-or-more positional
    takes all that the later ones do not need. *)
Fixpoint distribute (ps : list Argument) (run : list string)
    : list (Argument * list string) * list string :=
  match ps with
  | [] => ([], run)
  | a :: ps' =>
      let n := match nargs a with
               | NargsNone => 1%nat
               | NargsPlus => (length run - length ps')%nat
               end in
      let '(r, lo) := distribute ps' (drop n run) in
      ((a, take n run) :: r, lo)
  end.

Fixpoint take_actions (p : ArgumentParser) (l : list (Argument * list string))
    (st : PState) : PState + ParseResult :=
  match l with
  | [] => inl st
  | (a, vs) :: l' =>
      match take_action p a vs st with
      | inl st' => take_actions p l' st'
      | inr r => inr r
      end
  end.

(** [consume_positionals] on one run: as many pending positionals as the
    run can feed are matched; strings nobody takes are kept as extras. *)
Definition consume_positionals (p : ArgumentParser) (run : list string)
    (st : PState) : PState + ParseResult :=
  let k := (length (pending st) `min` length run)%nat in
  let '(assigned, leftover) := distribute (take k (pending st)) run in
  take_actions p assigned
    (MkPState (ns st) (seen st) (seen_non_default st) (drop k (pending st))
              (extras st ++ leftover)).

Definition arity (a : Argument) : nat :=
  match action a with
  | store => 1
  | _ => 0
  end.

(** The main loop: options take their action as they are met; an option
    that needs a value takes the next string, which must be a positional
    one; every run of positional strings feeds the pending positionals. *)
Fixpoint consume (p : ArgumentParser) (segs : list Seg)
    (expect : option Argument) (st : PState) : PState + ParseResult :=
  match segs with
  | [] =>
      match expect with
      | Some a => inr (ParseError ("expected one argument: " +:+ dest a))
      | None => inl st
      end
  | SegRun run :: segs' =>
      match expect, run with
      | Some a, v :: r =>
          match take_action p a [v] st with
          | inl st' =>
              match consume_positionals p r st' with
              | inl st'' => consume p segs' None st''
              | inr res => inr res
              end
          | inr res => inr res
          end
      | Some a, [] => inr (ParseError ("expected one argument: " +:+ dest a))
      | None, _ =>
          match consume_positionals p run st with
          | inl st' => consume p segs' None st'
          | inr res => inr res
          end
      end
  | SegOpt oa e raw :: segs' =>
      match expect with
      | Some a => inr (ParseError ("expected one argument: " +:+ dest a))
      | None =>
          match oa, e with
          | None, _ =>
              consume p segs' None
                (MkPState (ns st) (seen st) (seen_non_default st) (pending st)
                          (extras st ++ [raw]))
          | Some a, Some x =>
              if (arity a =? 1)%nat then
                match take_action p a [x] st with
                | inl st' => consume p segs' None st'
                | inr res => inr res
                end
              else inr (ParseError ("ignored explicit argument: " +:+ raw))
          | Some a, None =>
              if (arity a =? 0)%nat then
                match take_action p a [] st with
                | inl st' => consume p segs' None st'
                | inr res => inr res
                end
              else consume p segs' (Some a) st
          end
      end
  end.

(** The namespace before any string is read: the arguments' defaults, then
    the parser's own defaults for names still absent. *)
Definition initial_namespace (p : ArgumentParser) : gmap string PyVal :=
  let with_args :=
    fold_left (fun m a => match default a, m !! dest a with
                          | Some d, None => <[dest a := d]> m
                          | _, _ => m
                          end) (arguments p) ∅ in
  fold_left (fun m kv => match m !! kv.1 with
                         | None => <[kv.1 := kv.2]> m
                         | Some _ => m
                         end) (defaults p) with_args.

(** The checks once the command line is used up. *)
Definition finish (p : ArgumentParser) (st : PState) : ParseResult :=
  if existsb (fun a => is_positional a && negb (bool_decide (dest a ∈ seen st)))
             (arguments p)
  then ParseError "the following arguments are required"
  else if existsb (fun g => required g &&
                     negb (existsb (fun m => bool_decide (m ∈ seen_non_default st))
                                   (members g)))
                  (mutex_groups p)
  then ParseError "one of the arguments is required"
  else if negb (bool_decide (extras st = []))
  then ParseError "unrecognized arguments"
  else ParseOk (ns st).

Fixpoint classify_all (p : ArgumentParser) (argv : list string)
    : option (string + list Tok) :=
  match argv with
  | [] => Some (inr [])
  | s :: argv' =>
      match classify p s, classify_all p argv' with
      | Some (inl e), Some _ => Some (inl e)
      | Some (inr _), Some (inl e) => Some (inl e)
      | Some (inr t), Some (inr ts) => Some (inr (t :: ts))
      | _, _ => None
      end
  end.

Definition parse_args (p : ArgumentParser) (argv : list string)
    : option ParseResult :=
  match subparsers p with
  | Some _ => None
  | None =>
      match classify_all p argv with
      | None => None
      | Some (inl e) => Some (ParseError e)
      | Some (inr ts) =>
          let st0 := MkPState (initial_namespace p) [] []
                              (List.filter is_positional (arguments p)) [] in
          match consume p (segments ts) None st0 with
          | inl st => Some (finish p st)
          | inr res => Some res
          end
      end
  end.

(** A subcommand's own parser, as [gen_parser] creates it before the
    builder fills it in. *)
Definition subcommand_parser (name d : string) : ArgumentParser :=
  new_parser ("stratis " +:+ name) d.

(** ** The Error Code Catalog

    Modelled from the spec: [StratisdErrorsGen] of [_stratisd_constants.py],
    which is not among the sources (the test uses its [get_object]).  The
    spec describes a process-wide catalog, absent at process start; the first
    access issues one [GetErrorCodes] call through the Manager wrapper,
    builds the mapping from symbolic name to (code, description) and keeps
    it; later accesses return the kept mapping.  It exposes [code_for] and
    the reverse [describe]. *)

(** [Manager(dbus_object)]: a new instance at an unused address. *)
Definition new_Manager {D} (dbus_object : string) : Py D loc :=
  fun w => let self := fresh (dom (heap w)) in
           match Manager.__init__ self dbus_object w with
           | (Ok _, w') => (Ok self, w')
           | (Raise e, w') => (Raise e, w')
           end.

Definition decode_entry (v : PyVal) : option (string * Z * string) :=
  match v with
  | VTuple [VStr n; VInt c; VStr d] => Some (n, c, d)
  | _ => None
  end.

Definition decode_catalog (v : PyVal) : option (list (string * Z * string)) :=
  match v with
  | VList l => mapM decode_entry l
  | _ => None
  end.

(** The mapping keyed by symbolic name, filled entry by entry. *)
Definition build_mapping (es : list (string * Z * string))
    : gmap string (Z * string) :=
  fold_left (fun m e => <[e.1.1 := (e.1.2, e.2)]> m) es ∅.

Module StratisdErrorsGen.

Definition set_catalog {D} (m : gmap string (Z * string)) : Py D unit :=
  fun w => (Ok tt, MkWorld (heap w) (Some m) (trace w) (remote w)).

Definition get_object {D} (top : string) : Py D (gmap string (Z * string)) :=
  fun w =>
    match catalog w with
    | Some m => (Ok m, w)
    | None =>
        (mgr ← new_Manager top;
         v ← Manager.GetErrorCodes mgr;
         match decode_catalog v with
         | Some es =>
             _ ← set_catalog (build_mapping es);
             mret (build_mapping es)
         | None => raise (ValueError "GetErrorCodes")
         end) w
    end.

Definition code_for {D} (top name : string) : Py D Z :=
  m ← get_object top;
  match m !! name with
  | Some (c, _) => mret c
  | None => raise (AttributeError name)
  end.

Definition describe {D} (top : string) (code : Z) : Py D (string * string) :=
  m ← get_object top;
  match List.find (fun e => Z.eqb e.2.1 code) (map_to_list m) with
  | Some (n, (_, d)) => mret (n, d)
  | None => raise (ValueError "unknown code")
  end.

End StratisdErrorsGen.

(** The one call the catalog sends. *)
Definition get_error_codes_call (top : string) : Call :=
  MkCall top "GetErrorCodes" [] "org.storage.stratis1.Manager".

(** One use of the catalog by the process. *)
Inductive Access : Type :=
  | AccGetObject
  | AccCodeFor (name : string)
  | AccDescribe (code : Z).

Definition access {D} (top : string) (a : Access) (w : World D) : World D :=
  match a with
  | AccGetObject => snd (StratisdErrorsGen.get_object top w)
  | AccCodeFor n => snd (StratisdErrorsGen.code_for top n w)
  | AccDescribe c => snd (StratisdErrorsGen.describe top c w)
  end.

(** A sequence of uses, whatever each one returns or raises. *)
Definition accesses {D} (top : string) (l : list Access) (w : World D)
    : World D :=
  fold_left (fun w a => access top a w) l w.

(** How many calls of the given method the process has sent. *)
Definition count_calls (meth : string) (t : list Call) : nat :=
  length (List.filter (fun c => String.eqb (c_method c) meth) t).

(** ** Action dispatch

    Modelled from the spec: the [Pool] wrapper of [_dbus], the actions of
    [_actions.py], the error class of [_errors.py] and [run] of [_main.py],
    none of which is among the sources.  Per the spec an action resolves
    the names it needs through the Manager wrapper, failing at once when a
    resolution reports a non-zero status; then invokes the operation; then
    turns a non-zero status into a structured runtime failure carrying that
    code and the catalog's description.  The spec does not name the listing
    method of the Pool interface; it is called [ListVolumes] here. *)

Module Pool.

Definition _INTERFACE_NAME : string := "org.storage.stratis1.Pool".

Definition ListVolumes {D} (dbus_object : string) : Py D PyVal :=
  proxy_call dbus_object "ListVolumes" [] _INTERFACE_NAME.

End Pool.

(** A status code from the daemon: zero passes, anything else is raised
    with the description the catalog holds for it. *)
Definition check_status {D} (top : string) (rc : Z) : Py D unit :=
  if (rc =? 0)%Z then mret tt
  else nd ← StratisdErrorsGen.describe top rc;
       raise (StratisCliRuntimeError rc nd.2).

Definition as_strings (l : list PyVal) : option (list string) :=
  mapM (fun v => match v with VStr s => Some s | _ => None end) l.

Module LogicalActions.

Definition list_volumes {D} (top pool_name : string) : Py D (list string) :=
  mgr ← new_Manager top;
  r ← Manager.GetPoolObjectPath mgr (VStr pool_name);
  match r with
  | VTuple [VStr pool_object_path; VInt rc; VStr _] =>
      _ ← check_status top rc;
      r' ← Pool.ListVolumes pool_object_path;
      match r' with
      | VTuple [VList names; VInt rc'; VStr _] =>
          _ ← check_status top rc';
          match as_strings names with
          | Some l => mret l
          | None => raise (ValueError "ListVolumes")
          end
      | _ => raise (ValueError "ListVolumes")
      end
  | _ => raise (ValueError "GetPoolObjectPath")
  end.

End LogicalActions.

(** [run(command_line)], for the command lines the spec's scenarios use;
    other command lines are not described here. *)
Definition run {D} (top : string) (command_line : list string)
    : option (Py D (list string)) :=
  match command_line with
  | ["filesystem"; "list"; pool] => Some (LogicalActions.list_volumes top pool)
  | _ => None
  end.

(** ** A daemon to run against

    Modelled from the spec: the daemon's side of the Manager and Pool
    interfaces.  The daemon itself is an external program; the spec gives
    its contract: name-to-path resolution reports a domain "not found"
    status when no matching entity exists, [DestroyPool] of an unknown pool
    reports "not found", [ListPools] and the volume listing return a
    snapshot, [GetErrorCodes] returns the (name, code, description)
    catalog.  The numeric codes are the daemon's own choice. *)

Record SimCodes : Type := MkSimCodes {
  rc_pool_notfound : Z;
  rc_volume_notfound : Z;
  rc_cache_notfound : Z;
  rc_already_exists : Z
}.

Record SimPool : Type := MkSimPool {
  pool_devices : list PyVal;
  pool_redundancy : PyVal;
  pool_volumes : list string;
  pool_has_cache : bool
}.

Record SimState : Type := MkSimState {
  sim_codes : SimCodes;
  sim_pools : gmap string SimPool
}.

Definition sim_catalog (c : SimCodes) : list (string * Z * string) :=
  [ ("STRATIS_OK", 0, "ok");
    ("STRATIS_POOL_NOTFOUND", rc_pool_notfound c, "pool not found");
    ("STRATIS_VOLUME_NOTFOUND", rc_volume_notfound c, "volume not found");
    ("STRATIS_CACHE_NOTFOUND", rc_cache_notfound c, "cache not found");
    ("STRATIS_ALREADY_EXISTS", rc_already_exists c, "already exists") ].

Definition encode_entry (e : string * Z * string) : PyVal :=
  VTuple [VStr e.1.1; VInt e.1.2; VStr e.2].

Definition status (path : string) (rc : Z) (msg : string) : PyVal :=
  VTuple [VStr path; VInt rc; VStr msg].

Definition pool_path (n : string) : string := "/pool/" +:+ n.

Fixpoint strip_prefix (pre s : string) : option string :=
  match pre, s with
  | EmptyString, _ => Some s
  | String a pre', String b s' =>
      if Ascii.eqb a b then strip_prefix pre' s' else None
  | _, _ => None
  end.

(** The Manager interface. *)
Definition sim_manager (meth : string) (args : list PyVal) (s : SimState)
    : Reply * SimState :=
  let rc := sim_codes s in
  let pools := sim_pools s in
  match args with
  | [] =>
      if String.eqb meth "GetErrorCodes" then
        (Returned (VList (map encode_entry (sim_catalog rc))), s)
      else if String.eqb meth "GetRaidLevels" then
        (Returned (VList [VTuple [VStr "none"; VInt 0; VStr "no redundancy"]]), s)
      else if String.eqb meth "ListPools" then
        (Returned (VTuple [VList (map VStr (elements (dom pools)));
                           VInt 0; VStr "ok"]), s)
      else (Failed (DBusException "unknown method"), s)
  | [VStr n] =>
      if String.eqb meth "GetPoolObjectPath" then
        match pools !! n with
        | Some _ => (Returned (status (pool_path n) 0 "ok"), s)
        | None => (Returned (status "" (rc_pool_notfound rc) "pool not found"), s)
        end
      else if String.eqb meth "GetCacheObjectPath" then
        match pools !! n with
        | Some p =>
            if pool_has_cache p
            then (Returned (status (pool_path n +:+ "/cache") 0 "ok"), s)
            else (Returned (status "" (rc_cache_notfound rc) "cache not found"), s)
        | None => (Returned (status "" (rc_pool_notfound rc) "pool not found"), s)
        end
      else if String.eqb meth "DestroyPool" then
        match pools !! n with
        | Some _ => (Returned (status "" 0 "ok"),
                     MkSimState rc (delete n pools))
        | None => (Returned (status "" (rc_pool_notfound rc) "pool not found"), s)
        end
      else (Failed (DBusException "unknown method"), s)
  | [VStr n; VStr v] =>
      if String.eqb meth "GetVolumeObjectPath" then
        match pools !! n with
        | Some p =>
            if bool_decide (v ∈ pool_volumes p)
            then (Returned (status (pool_path n +:+ "/" +:+ v) 0 "ok"), s)
            else (Returned (status "" (rc_volume_notfound rc) "volume not found"), s)
        | None => (Returned (status "" (rc_pool_notfound rc) "pool not found"), s)
        end
      else (Failed (DBusException "unknown method"), s)
  | [VStr n; VList devices; redundancy] =>
      if String.eqb meth "CreatePool" then
        match pools !! n with
        | Some _ => (Returned (status "" (rc_already_exists rc) "already exists"), s)
        | None => (Returned (status (pool_path n) 0 "ok"),
                   MkSimState rc (<[n := MkSimPool devices redundancy [] false]> pools))
        end
      else (Failed (DBusException "unknown method"), s)
  | _ => (Failed (DBusException "bad arguments"), s)
  end.

(** The Pool interface, on the object of one pool. *)
Definition sim_pool (obj meth : string) (args : list PyVal) (s : SimState)
    : Reply * SimState :=
  match strip_prefix "/pool/" obj with
  | Some n =>
      match sim_pools s !! n, args with
      | Some p, [] =>
          if String.eqb meth "ListVolumes" then
            (Returned (VTuple [VList (map VStr (pool_volumes p));
                               VInt 0; VStr "ok"]), s)
          else (Failed (DBusException "unknown method"), s)
      | _, _ => (Failed (DBusException "unknown object"), s)
      end
  | None => (Failed (DBusException "unknown object"), s)
  end.

Definition sim_step (c : Call) (s : SimState) : Reply * SimState :=
  if String.eqb (c_interface c) Manager._INTERFACE_NAME then
    sim_manager (c_method c) (c_args c) s
  else if String.eqb (c_interface c) Pool._INTERFACE_NAME then
    sim_pool (c_object c) (c_method c) (c_args c) s
  else if String.eqb (c_interface c) Properties._INTERFACE_NAME then
    match c_args c with
    | [VStr _; VStr "Version"] => (Returned (VStr "0.0.0"), s)
    | [VStr _; VStr "LogLevel"] => (Returned (VStr "info"), s)
    | _ => (Failed (DBusException "unknown property"), s)
    end
  else (Failed (DBusException "unknown interface"), s).

Definition sim : Daemon := MkDaemon SimState sim_step.

(** The operations of the Manager interface that change the daemon. *)
Definition mutating (meth : string) : bool :=
  String.eqb meth "CreatePool" || String.eqb meth "DestroyPool".

(** A status code that is one of the daemon's "not found" codes and is not
    the success code. *)
Definition is_not_found (c : SimCodes) (rc : Z) : Prop :=
  rc <> 0 /\
  (rc = rc_pool_notfound c \/ rc = rc_volume_notfound c \/
   rc = rc_cache_notfound c).

(** A process that has just started against the given daemon state. *)
Definition fresh_world (s : SimState) : World sim :=
  MkWorld (D := sim) ∅ None [] s.

(** The daemon's "not found" codes are failures: none is the success code. *)
Definition codes_nonzero (c : SimCodes) : Prop :=
  rc_pool_notfound c <> 0 /\ rc_volume_notfound c <> 0 /\
  rc_cache_notfound c <> 0.

(** The operation is a name-to-path resolution, and in daemon state [s] no
    entity matches the name it asks for. *)
Definition resolution_misses (s : SimState) (op : ManagerOp) : Prop :=
  match op with
  | OpGetPoolObjectPath (VStr n) => sim_pools s !! n = None
  | OpGetVolumeObjectPath (VStr n) (VStr v) =>
      match sim_pools s !! n with
      | Some p => v ∉ pool_volumes p
      | None => True
      end
  | OpGetCacheObjectPath (VStr n) =>
      match sim_pools s !! n with
      | Some p => pool_has_cache p = false
      | None => True
      end
  | _ => False
  end.

(** A daemon state and a client process used as concrete instances. *)
Definition demo_codes : SimCodes := MkSimCodes 3 4 5 6.

Definition demo_world : World sim :=
  MkWorld (D := sim) {[ 1%positive := MkManagerObj "/org/storage/stratis1" ]}
          None [] (MkSimState demo_codes ∅).

(** The parsers of the [stratisd] and [create] subcommands, as [gen_parser]
    makes them: a fresh subcommand parser handed to the builder. *)
Definition stratisd_parser : ArgumentParser :=
  built build_stratisd_parser
    (subcommand_parser "stratisd" "Information about Stratisd").

Definition create_parser : ArgumentParser :=
  built build_create_parser (subcommand_parser "create" "Create New Stratis Pool").

(** The flag stored under [d] in a namespace. *)
Definition flag_of (ns : gmap string PyVal) (d : string) : option bool :=
  match ns !! d with
  | Some (VBool b) => Some b
  | _ => None
  end.

(** Exactly one of the three daemon-information flags is set, the other
    two are at their default. *)
Definition exactly_one_flag (ns : gmap string PyVal) : Prop :=
  (flag_of ns "log_level" = Some true /\ flag_of ns "redundancy" = Some false /\
   flag_of ns "version" = Some false) \/
  (flag_of ns "log_level" = Some false /\ flag_of ns "redundancy" = Some true /\
   flag_of ns "version" = Some false) \/
  (flag_of ns "log_level" = Some false /\ flag_of ns "redundancy" = Some false /\
   flag_of ns "version" = Some true).

(** What holds of the parser state all along a [stratisd] command line:
    [b1], [b2], [b3] tell which flags have been met, at most one of them. *)
Definition stratisd_inv (st : PState) : Prop :=
  pending st = [] /\
  ns st !! "func" = Some (VFunc "StratisActions.dispatch") /\
  exists b1 b2 b3 : bool,
    ns st !! "log_level" = Some (VBool b1) /\
    ns st !! "redundancy" = Some (VBool b2) /\
    ns st !! "version" = Some (VBool b3) /\
    ("log_level" ∈ seen_non_default st <-> b1 = true) /\
    ("redundancy" ∈ seen_non_default st <-> b2 = true) /\
    ("version" ∈ seen_non_default st <-> b3 = true) /\
    (b1 && b2 = false) /\ (b1 && b3 = false) /\ (b2 && b3 = false).

(** Every option of the segments belongs to the parser. *)
Definition segs_of (p : ArgumentParser) (segs : list Seg) : Prop :=
  Forall (fun s => match s with
                   | SegOpt (Some a) _ _ => a ∈ arguments p
                   | _ => True
                   end) segs.

(** Every option of a classified string belongs to the parser. *)
Definition tok_of (p : ArgumentParser) (t : Tok) : Prop :=
  match t with
  | TOpt (Some a) _ _ => a ∈ arguments p
  | _ => True
  end.

(** The three arguments [build_create_parser] declares. *)
Definition name_arg : Argument :=
  positional_argument "name" "name to assign to pool" None NargsNone.

Definition device_arg : Argument :=
  positional_argument "device" "make device D a member of this pool"
                      (Some "D") NargsPlus.

Definition redundancy_arg : Argument :=
  MkArgument ["--redundancy"] "redundancy" store NargsNone (Some ["none"])
             (Some (VStr "none")) "redundancy selection for this pool" None.

(** A namespace as a complete [create] command line leaves it: a pool
    name, at least one device, redundancy 'none', and the bound action. *)
Definition create_namespace (n : gmap string PyVal) : Prop :=
  (exists v, n !! "name" = Some (VStr v)) /\
  (exists d ds, n !! "device" = Some (VList (map VStr (d :: ds)))) /\
  n !! "redundancy" = Some (VStr "none") /\
  n !! "func" = Some (VFunc "TopActions.create_pool").

(** What holds of the parser state all along a [create] command line. *)
Definition create_inv (st : PState) : Prop :=
  ns st !! "func" = Some (VFunc "TopActions.create_pool") /\
  ns st !! "redundancy" = Some (VStr "none") /\
  (pending st = [name_arg; device_arg] \/ pending st = [device_arg] \/
   pending st = []) /\
  ("name" ∈ seen st -> exists v, ns st !! "name" = Some (VStr v)) /\
  ("device" ∈ seen st ->
   exists d ds, ns st !! "device" = Some (VList (map VStr (d :: ds)))).

(** A command-line string that cannot be taken for an option. *)
Definition plain (s : string) : Prop :=
  match s with
  | String c _ => c <> ("-")%char
  | EmptyString => True
  end.

(** The action function a parser binds with [set_defaults(func=...)]. *)
Definition bound_action (p : ArgumentParser) : option PyVal :=
  snd <$> List.find (fun kv : string * PyVal => String.eqb kv.1 "func")
                    (defaults p).

(** The subcommands a parser has registered, with their parsers. *)
Definition registered (p : ArgumentParser) : list (string * ArgumentParser) :=
  match subparsers p with
  | Some (_, _, subs) => subs
  | None => []
  end.

(** The call one use of the wrapper puts on the bus, for a wrapper whose
    proxy is [o]. *)
Definition call_of_member (o : string) (m : ManagerMember) : Call :=
  match m with
  | Method op => MkCall o (op_name op) (op_args op) Manager._INTERFACE_NAME
  | PropVersion =>
      MkCall o "Get" [VStr Manager._INTERFACE_NAME; VStr "Version"]
             Properties._INTERFACE_NAME
  | PropLogLevel =>
      MkCall o "Get" [VStr Manager._INTERFACE_NAME; VStr "LogLevel"]
             Properties._INTERFACE_NAME
  end.

(** The daemon after it has answered the given calls, one after another. *)
Definition daemon_after (D : Daemon) (cs : list Call) (d : dstate D)
    : dstate D :=
  fold_left (fun d c => (dstep D c d).2) cs d.

(** The names under which [gen_parser] registers subcommands, in order. *)
Definition subcommand_names : list string :=
  ["blockdev"; "create"; "destroy"; "filesystem"; "list"; "stratisd"; "rename"].

(** The parsers of the [destroy], [rename] and [list] subcommands, as
    [gen_parser] makes them. *)
Definition destroy_parser : ArgumentParser :=
  built build_destroy_parser
    (subcommand_parser "destroy" "Destroy Existing Stratis Pool").

Definition rename_parser : ArgumentParser :=
  built build_rename_parser (subcommand_parser "rename" "Rename a Pool").

Definition list_parser : ArgumentParser :=
  built build_list_parser (subcommand_parser "list" "List Stratis Pools").

(** While a command line is read, the names no argument is stored under
    keep the value they started with, and the positionals still to match
    are arguments of the parser. *)
Definition untouched (p : ArgumentParser) (st : PState) : Prop :=
  (forall k, k ∉ dest <$> arguments p ->
             ns st !! k = initial_namespace p !! k) /\
  (forall a, a ∈ pending st -> a ∈ arguments p).

(** A parser binds an action function for every command line it accepts:
    with [set_defaults(func=...)] at its own level or, where it dispatches
    on a second tier of subcommands, in each parser of that tier. *)
Definition binds_action (p : ArgumentParser) : Prop :=
  is_Some (bound_action p) \/
  (registered p <> [] /\
   Forall (fun np : string * ArgumentParser => is_Some (bound_action np.2))
          (registered p)).

(** The subcommands of [gen_parser] with their descriptions, in the order
    of the code. *)
Definition subcommands : list (string * string) :=
  [ ("blockdev", "Administer Blockdev Aspects of Specified Pool");
    ("create", "Create New Stratis Pool");
    ("destroy", "Destroy Existing Stratis Pool");
    ("filesystem", "Administer Filesystems Aspects of Specified Pool");
    ("list", "List Stratis Pools");
    ("stratisd", "Information about Stratisd");
    ("rename", "Rename a Pool") ].

(** A builder that gives its parser a second tier of subcommands; a concrete
    instance where a theorem takes the two imported builders as parameters. *)
Definition two_tier_builder : Builder :=
  fun parser =>
    add_parser "list" "List" build_list_parser
               (add_subparsers "subparser_name" "subcommands" parser).

(** Modelled from the spec: the order every action follows.  First the
    name-to-path resolution through the Manager wrapper, failing at once
    when the resolution reports a non-zero status; only then the primary
    operation, on the path resolved.  [primary] stands for whatever the
    action does from there on, mutating or not. *)
Definition resolve_then {D A} (top : string) (resolution : ManagerOp)
    (primary : string -> Py D A) : Py D A :=
  mgr ← new_Manager top;
  r ← call_op mgr resolution;
  match r with
  | VTuple [VStr object_path; VInt rc; VStr _] =>
      _ ← check_status top rc;
      primary object_path
  | _ => raise (ValueError (op_name resolution))
  end.

(** The catalog of the process is either not fetched yet or the one the
    daemon gives. *)
Definition catalog_in_step (w : World sim) : Prop :=
  catalog w = None \/
  catalog w = Some (build_mapping (sim_catalog (sim_codes (remote w)))).

(** The calls a failing status check adds: the catalog is fetched if the
    process has not done so before. *)
Definition catalog_fetch (top : string) (w : World sim) : list Call :=
  match catalog w with
  | None => [get_error_codes_call top]
  | Some _ => []
  end.

(** A daemon with one pool, of one volume and no cache. *)
Definition live_state : SimState :=
  MkSimState demo_codes
    {[ "livepool" := MkSimPool [VStr "/dev/sda"] (VInt 0) ["livery"] false ]}.

(** A classified string: a positional one is the command-line string
    itself; an option found in the parser is one of its optionals. *)
Definition tok_from (p : ArgumentParser) (s : string) (t : Tok) : Prop :=
  match t with
  | TPos s' => s' = s
  | TOpt (Some a) _ _ => a ∈ arguments p /\ is_positional a = false
  | TOpt None _ _ => True
  end.

(** The same of the segments of a command line: every string of a run is
    a string of [argv]. *)
Definition segs_from (p : ArgumentParser) (argv : list string)
    (segs : list Seg) : Prop :=
  Forall (fun s => match s with
                   | SegRun r => Forall (fun v => v ∈ argv) r
                   | SegOpt (Some a) _ _ =>
                       a ∈ arguments p /\ is_positional a = false
                   | SegOpt None _ _ => True
                   end) segs.

(** What the action of a [store] argument leaves in the namespace once it
    has run on strings of [argv]. *)
Definition stored_from (argv : list string) (a : Argument)
    (v : option PyVal) : Prop :=
  match action a, nargs a with
  | store, NargsNone => exists s, v = Some (VStr s) /\ s ∈ argv
  | store, NargsPlus =>
      exists l, v = Some (VList (map VStr l)) /\ Forall (fun s => s ∈ argv) l
  | _, _ => True
  end.

(** Every positional whose action has run holds strings of [argv]. *)
Definition placed (p : ArgumentParser) (argv : list string) (st : PState)
    : Prop :=
  forall a, a ∈ arguments p -> is_positional a = true ->
            dest a ∈ seen st -> stored_from argv a (ns st !! dest a).

(** * Properties *)

(** ** The Manager wrapper *)

Lemma proxy_call_spec {D} (obj meth : string) (args : list PyVal)
    (iface : string) (w : World D) :
  proxy_call obj meth args iface w =
  (outcome_of_reply (dstep D (MkCall obj meth args iface) (remote w)).1,
   MkWorld (heap w) (catalog w) (trace w ++ [MkCall obj meth args iface])
           (dstep D (MkCall obj meth args iface) (remote w)).2).
Proof.
  unfold proxy_call.
  destruct (dstep D (MkCall obj meth args iface) (remote w)) as [r d'].
  destruct r; reflexivity.
Qed.

Lemma bind_get_dbus_object {D A} (self : loc) (o : ManagerObj)
    (k : string -> Py D A) (w : World D) :
  heap w !! self = Some o ->
  (get_dbus_object self ≫= k) w = k (_dbus_object o) w.
Proof.
  intros H. unfold mbind, py_bind, bind, get_dbus_object. rewrite H.
  reflexivity.
Qed.

Lemma bind_get_dbus_object_none {D A} (self : loc)
    (k : string -> Py D A) (w : World D) :
  heap w !! self = None ->
  (get_dbus_object self ≫= k) w = (Raise (AttributeError "_dbus_object"), w).
Proof.
  intros H. unfold mbind, py_bind, bind, get_dbus_object. rewrite H.
  reflexivity.
Qed.

Lemma call_op_proxy_call {D} (self : loc) (o : ManagerObj) (op : ManagerOp)
    (w : World D) :
  heap w !! self = Some o ->
  call_op self op w =
  proxy_call (_dbus_object o) (op_name op) (op_args op)
             Manager._INTERFACE_NAME w.
Proof.
  intros H.
  destruct op; simpl;
    unfold Manager.CreatePool, Manager.DestroyPool, Manager.GetCacheObjectPath,
      Manager.GetErrorCodes, Manager.GetPoolObjectPath, Manager.GetRaidLevels,
      Manager.GetVolumeObjectPath, Manager.ListPools;
    rewrite (bind_get_dbus_object self o _ w H); reflexivity.
Qed.

(** C1.  Each of the eight operations of the Manager wrapper is a thin
    forward: on a wrapper holding proxy [o], the operation puts exactly one
    call on the bus, namely the same-named method of [o] with the caller's
    arguments unchanged and in order and with the interface name
    'org.storage.stratis1.Manager'; what the transport answers (a value or
    a failure) is what the operation returns or raises, as it is. *)
Theorem manager_op_forwards (D : Daemon) (self : loc) (o : ManagerObj)
    (op : ManagerOp) (w : World D) :
  heap w !! self = Some o ->
  let c := MkCall (_dbus_object o) (op_name op) (op_args op)
                  "org.storage.stratis1.Manager" in
  call_op self op w =
  (outcome_of_reply (dstep D c (remote w)).1,
   MkWorld (heap w) (catalog w) (trace w ++ [c]) (dstep D c (remote w)).2).
Proof.
  intros H c. subst c.
  rewrite (call_op_proxy_call self o op w H).
  apply proxy_call_spec.
Qed.

Lemma manager_op_forwards_witness :
  heap demo_world !! 1%positive = Some (MkManagerObj "/org/storage/stratis1") /\
  call_op 1%positive (OpGetPoolObjectPath (VStr "deadpool")) demo_world =
  (Ok (status "" 3 "pool not found"),
   MkWorld (D := sim) (heap demo_world) None
     [MkCall "/org/storage/stratis1" "GetPoolObjectPath" [VStr "deadpool"]
             "org.storage.stratis1.Manager"]
     (MkSimState demo_codes ∅)).
Proof.
  split; [reflexivity|].
  apply (manager_op_forwards sim 1%positive
           (MkManagerObj "/org/storage/stratis1")
           (OpGetPoolObjectPath (VStr "deadpool")) demo_world).
  reflexivity.
Defined.

Lemma use_member_heap {D} (self : loc) (m : ManagerMember) (w : World D) :
  heap (use_member self m w).2 = heap w.
Proof.
  destruct (heap w !! self) as [o|] eqn:H.
  - destruct m as [op| |]; simpl.
    + rewrite (call_op_proxy_call self o op w H), proxy_call_spec.
      reflexivity.
    + unfold Manager.Version. rewrite (bind_get_dbus_object self o _ w H).
      unfold Properties.Get. rewrite proxy_call_spec. reflexivity.
    + unfold Manager.LogLevel. rewrite (bind_get_dbus_object self o _ w H).
      unfold Properties.Get. rewrite proxy_call_spec. reflexivity.
  - destruct m as [op| |]; simpl;
      [destruct op; simpl|..];
      unfold Manager.CreatePool, Manager.DestroyPool,
        Manager.GetCacheObjectPath, Manager.GetErrorCodes,
        Manager.GetPoolObjectPath, Manager.GetRaidLevels,
        Manager.GetVolumeObjectPath, Manager.ListPools,
        Manager.Version, Manager.LogLevel;
      rewrite (bind_get_dbus_object_none self _ w H); reflexivity.
Qed.

(** C10.  No method and no property of the Manager wrapper changes
    client-side state: after any one use, and after any sequence of uses in
    any order, the client's objects (so the wrapper's only field, the stored
    [_dbus_object] handle) are what they were before. *)
Theorem manager_leaves_client_state (D : Daemon) (self : loc) (w : World D) :
  (forall m : ManagerMember,
     heap (use_member self m w).2 = heap w /\
     (use_member self m w).2.(heap) !! self = heap w !! self) /\
  (forall ms : list ManagerMember,
     heap (use_members self ms w) = heap w /\
     heap (use_members self ms w) !! self = heap w !! self).
Proof.
  split.
  - intros m. rewrite use_member_heap. split; reflexivity.
  - intros ms. revert w. induction ms as [|m ms IH]; intros w; simpl.
    + split; reflexivity.
    + destruct (IH (use_member self m w).2) as [IH1 IH2].
      rewrite IH1, use_member_heap. split; reflexivity.
Qed.

(** ** The Error Code Catalog *)

Lemma get_object_cached {D} (top : string) (m : gmap string (Z * string))
    (w : World D) :
  catalog w = Some m -> StratisdErrorsGen.get_object top w = (Ok m, w).
Proof.
  intros H. unfold StratisdErrorsGen.get_object. rewrite H. reflexivity.
Qed.

Lemma get_object_first {D} (top : string) (w : World D) (v : PyVal)
    (d' : dstate D) (es : list (string * Z * string)) :
  catalog w = None ->
  dstep D (get_error_codes_call top) (remote w) = (Returned v, d') ->
  decode_catalog v = Some es ->
  StratisdErrorsGen.get_object top w =
  (Ok (build_mapping es),
   MkWorld (<[fresh (dom (heap w)) := MkManagerObj top]> (heap w))
           (Some (build_mapping es))
           (trace w ++ [get_error_codes_call top]) d').
Proof.
  intros Hc Hd He.
  unfold StratisdErrorsGen.get_object. rewrite Hc.
  unfold mbind, py_bind, bind, new_Manager, Manager.__init__. simpl.
  unfold Manager.GetErrorCodes, mbind, py_bind, bind, get_dbus_object. simpl.
  rewrite lookup_insert_eq. simpl.
  rewrite proxy_call_spec. simpl.
  unfold get_error_codes_call in Hd. unfold Manager._INTERFACE_NAME.
  rewrite Hd. simpl. rewrite He. reflexivity.
Qed.

Lemma access_cached {D} (top : string) (m : gmap string (Z * string))
    (a : Access) (w : World D) :
  catalog w = Some m -> access top a w = w.
Proof.
  intros H. destruct a; simpl.
  - rewrite (get_object_cached top m w H). reflexivity.
  - unfold StratisdErrorsGen.code_for, mbind, py_bind, bind.
    rewrite (get_object_cached top m w H).
    destruct (m !! name) as [[c d]|]; reflexivity.
  - unfold StratisdErrorsGen.describe, mbind, py_bind, bind.
    rewrite (get_object_cached top m w H).
    destruct (List.find _ _) as [[n [c d]]|]; reflexivity.
Qed.

Lemma accesses_cached {D} (top : string) (m : gmap string (Z * string))
    (l : list Access) (w : World D) :
  catalog w = Some m -> accesses top l w = w.
Proof.
  intros H. induction l as [|a l IH]; simpl; [reflexivity|].
  unfold accesses in *. simpl. rewrite (access_cached top m a w H). exact IH.
Qed.

Lemma access_first {D} (top : string) (a : Access) (w : World D) (v : PyVal)
    (d' : dstate D) (es : list (string * Z * string)) :
  catalog w = None ->
  dstep D (get_error_codes_call top) (remote w) = (Returned v, d') ->
  decode_catalog v = Some es ->
  access top a w =
  MkWorld (<[fresh (dom (heap w)) := MkManagerObj top]> (heap w))
          (Some (build_mapping es))
          (trace w ++ [get_error_codes_call top]) d'.
Proof.
  intros Hc Hd He. destruct a; simpl.
  - rewrite (get_object_first top w v d' es Hc Hd He). reflexivity.
  - unfold StratisdErrorsGen.code_for, mbind, py_bind, bind.
    rewrite (get_object_first top w v d' es Hc Hd He).
    destruct (build_mapping es !! name) as [[c d]|]; reflexivity.
  - unfold StratisdErrorsGen.describe, mbind, py_bind, bind.
    rewrite (get_object_first top w v d' es Hc Hd He).
    destruct (List.find _ _) as [[n [c d]]|]; reflexivity.
Qed.

Lemma count_calls_app (meth : string) (t1 t2 : list Call) :
  count_calls meth (t1 ++ t2) = (count_calls meth t1 + count_calls meth t2)%nat.
Proof.
  unfold count_calls. rewrite List.filter_app, length_app. reflexivity.
Qed.

(** C3.  In a process whose catalog is still absent, and whose daemon
    answers [GetErrorCodes] with a well-formed catalog, every non-empty
    sequence of accesses to the catalog puts exactly one call on the bus, a
    [GetErrorCodes] call made by the first access; the later accesses use
    the kept mapping and send nothing. *)
Theorem catalog_fetched_once (D : Daemon) (top : string) (w : World D)
    (v : PyVal) (d' : dstate D) (es : list (string * Z * string))
    (a : Access) (l : list Access) :
  catalog w = None ->
  dstep D (get_error_codes_call top) (remote w) = (Returned v, d') ->
  decode_catalog v = Some es ->
  trace (access top a w) = trace w ++ [get_error_codes_call top] /\
  accesses top (a :: l) w = access top a w /\
  trace (accesses top (a :: l) w) = trace w ++ [get_error_codes_call top] /\
  count_calls "GetErrorCodes" (trace (accesses top (a :: l) w)) =
    S (count_calls "GetErrorCodes" (trace w)) /\
  catalog (accesses top (a :: l) w) = Some (build_mapping es).
Proof.
  intros Hc Hd He.
  assert (Hl : accesses top (a :: l) w = access top a w).
  { unfold accesses. simpl.
    apply (accesses_cached top (build_mapping es)).
    rewrite (access_first top a w v d' es Hc Hd He). reflexivity. }
  rewrite Hl, (access_first top a w v d' es Hc Hd He). simpl.
  repeat split.
  rewrite count_calls_app.
  change (count_calls "GetErrorCodes" [get_error_codes_call top]) with 1%nat.
  lia.
Qed.

Lemma catalog_fetched_once_witness :
  catalog (fresh_world (MkSimState demo_codes ∅)) = None /\
  count_calls "GetErrorCodes"
    (trace (accesses "/org/storage/stratis1"
              [AccCodeFor "STRATIS_POOL_NOTFOUND"; AccGetObject; AccDescribe 3]
              (fresh_world (MkSimState demo_codes ∅)))) = 1%nat.
Proof.
  split; [reflexivity|].
  destruct (catalog_fetched_once sim "/org/storage/stratis1"
              (fresh_world (MkSimState demo_codes ∅))
              (VList (map encode_entry (sim_catalog demo_codes)))
              (MkSimState demo_codes ∅) (sim_catalog demo_codes)
              (AccCodeFor "STRATIS_POOL_NOTFOUND")
              [AccGetObject; AccDescribe 3]
              eq_refl eq_refl eq_refl) as (_ & _ & _ & H & _).
  exact H.
Defined.

Lemma get_object_sets {D} (top : string) (w w' : World D)
    (m : gmap string (Z * string)) :
  StratisdErrorsGen.get_object top w = (Ok m, w') -> catalog w' = Some m.
Proof.
  unfold StratisdErrorsGen.get_object.
  destruct (catalog w) as [m0|] eqn:Hc.
  - intros H. injection H as -> ->. exact Hc.
  - unfold mbind, py_bind, bind, new_Manager, Manager.__init__. simpl.
    unfold Manager.GetErrorCodes, mbind, py_bind, bind, get_dbus_object. simpl.
    rewrite lookup_insert_eq. simpl. rewrite proxy_call_spec. simpl.
    destruct (dstep D _ _) as [[v|e] d']; simpl; [|discriminate].
    destruct (decode_catalog v) as [es|]; simpl; [|discriminate].
    intros H. injection H as <- <-. reflexivity.
Qed.

Lemma NoDup_fmap_eq {A B} (f : A -> B) (l : list A) (x y : A) :
  NoDup (f <$> l) -> x ∈ l -> y ∈ l -> f x = f y -> x = y.
Proof.
  induction l as [|a l IH]; simpl; intros Hnd Hx Hy Hf.
  - inversion Hx.
  - apply NoDup_cons in Hnd as [Hna Hnd].
    apply elem_of_cons in Hx as [->|Hx]; apply elem_of_cons in Hy as [->|Hy].
    + reflexivity.
    + exfalso. apply Hna. rewrite Hf. apply list_elem_of_fmap. eauto.
    + exfalso. apply Hna. rewrite <- Hf. apply list_elem_of_fmap. eauto.
    + auto.
Qed.

Lemma describe_cached {D} (top : string) (w : World D)
    (m : gmap string (Z * string)) (name : string) (c : Z) (d : string) :
  catalog w = Some m ->
  NoDup ((fun e : string * (Z * string) => e.2.1) <$> map_to_list m) ->
  m !! name = Some (c, d) ->
  StratisdErrorsGen.describe top c w = (Ok (name, d), w).
Proof.
  intros Hc Hnd Hm.
  unfold StratisdErrorsGen.describe, mbind, py_bind, bind.
  rewrite (get_object_cached top m w Hc).
  assert (Hin : (name, (c, d)) ∈ map_to_list m)
    by (apply elem_of_map_to_list; exact Hm).
  destruct (List.find _ _) as [[n [c' d']]|] eqn:Hf.
  - apply List.find_some in Hf as [Hin' Heq]. simpl in Heq.
    apply Z.eqb_eq in Heq. subst c'.
    apply list_elem_of_In in Hin'.
    assert (E : (n, (c, d')) = (name, (c, d)))
      by (apply (NoDup_fmap_eq _ _ _ _ Hnd Hin' Hin); reflexivity).
    injection E as -> ->. reflexivity.
  - exfalso. apply list_elem_of_In in Hin.
    pose proof (List.find_none _ _ Hf _ Hin) as Hn. simpl in Hn.
    rewrite Z.eqb_refl in Hn. discriminate.
Qed.

(** C4.  With the catalog available as mapping [m], and no code recorded
    under two names, [describe] undoes [code_for]: for every name [m]
    knows, with code [c] and description [d], describing the result of
    [code_for name] returns the pair (name, d). *)
Theorem describe_code_for (D : Daemon) (top : string) (w w' : World D)
    (m : gmap string (Z * string)) (name : string) (c : Z) (d : string) :
  StratisdErrorsGen.get_object top w = (Ok m, w') ->
  NoDup ((fun e : string * (Z * string) => e.2.1) <$> map_to_list m) ->
  m !! name = Some (c, d) ->
  StratisdErrorsGen.code_for top name w = (Ok c, w') /\
  (StratisdErrorsGen.code_for top name ≫= StratisdErrorsGen.describe top) w =
    (Ok (name, d), w').
Proof.
  intros Hg Hnd Hm.
  assert (Hcf : StratisdErrorsGen.code_for top name w = (Ok c, w')).
  { unfold StratisdErrorsGen.code_for, mbind, py_bind, bind.
    rewrite Hg, Hm. reflexivity. }
  split; [exact Hcf|].
  unfold mbind at 1, py_bind at 1, bind at 1. rewrite Hcf.
  apply (describe_cached top w' m name c d); auto.
  exact (get_object_sets top w w' m Hg).
Qed.

Lemma describe_code_for_witness :
  build_mapping (sim_catalog demo_codes) !! "STRATIS_POOL_NOTFOUND" =
    Some (3, "pool not found") /\
  (StratisdErrorsGen.code_for "/org/storage/stratis1" "STRATIS_POOL_NOTFOUND"
     ≫= StratisdErrorsGen.describe "/org/storage/stratis1")
    (fresh_world (MkSimState demo_codes ∅)) =
  (Ok ("STRATIS_POOL_NOTFOUND", "pool not found"),
   (StratisdErrorsGen.get_object "/org/storage/stratis1"
      (fresh_world (MkSimState demo_codes ∅))).2).
Proof.
  split; [reflexivity|].
  apply (describe_code_for sim "/org/storage/stratis1"
           (fresh_world (MkSimState demo_codes ∅))
           (StratisdErrorsGen.get_object "/org/storage/stratis1"
              (fresh_world (MkSimState demo_codes ∅))).2
           (build_mapping (sim_catalog demo_codes))
           "STRATIS_POOL_NOTFOUND" 3 "pool not found").
  - reflexivity.
  - apply (bool_decide_unpack _). vm_compute. exact I.
  - reflexivity.
Defined.

(** ** Resolution and listing against the daemon *)

Lemma bind_ok {D A B} (m : Py D A) (k : A -> Py D B) (w w' : World D) (a : A) :
  m w = (Ok a, w') -> (m ≫= k) w = k a w'.
Proof. intros H. unfold mbind, py_bind, bind. rewrite H. reflexivity. Qed.

Lemma bind_raise {D A B} (m : Py D A) (k : A -> Py D B) (w w' : World D)
    (e : Exn) :
  m w = (Raise e, w') -> (m ≫= k) w = (Raise e, w').
Proof. intros H. unfold mbind, py_bind, bind. rewrite H. reflexivity. Qed.

Lemma new_Manager_spec {D} (top : string) (w : World D) :
  new_Manager top w =
  (Ok (fresh (dom (heap w))),
   MkWorld (<[fresh (dom (heap w)) := MkManagerObj top]> (heap w))
           (catalog w) (trace w) (remote w)).
Proof. reflexivity. Qed.

(** A resolution through a wrapper just made for the purpose. *)
Lemma resolve_with_new_Manager {D} (top : string) (op : ManagerOp)
    (w : World D) :
  (new_Manager top ≫= fun mgr => call_op mgr op) w =
  (outcome_of_reply
     (dstep D (MkCall top (op_name op) (op_args op) Manager._INTERFACE_NAME)
            (remote w)).1,
   MkWorld (<[fresh (dom (heap w)) := MkManagerObj top]> (heap w))
           (catalog w)
           (trace w ++ [MkCall top (op_name op) (op_args op)
                               Manager._INTERFACE_NAME])
           (dstep D (MkCall top (op_name op) (op_args op) Manager._INTERFACE_NAME)
                  (remote w)).2).
Proof.
  rewrite (bind_ok _ _ _ _ _ (new_Manager_spec top w)).
  rewrite (call_op_proxy_call _ (MkManagerObj top) op _
             (lookup_insert_eq _ _ _)).
  rewrite proxy_call_spec. reflexivity.
Qed.

Lemma sim_get_error_codes (top : string) (s : SimState) :
  dstep sim (get_error_codes_call top) s =
  (Returned (VList (map encode_entry (sim_catalog (sim_codes s)))), s).
Proof. reflexivity. Qed.

Lemma sim_mapping_pool_notfound (c : SimCodes) :
  build_mapping (sim_catalog c) !! "STRATIS_POOL_NOTFOUND" =
  Some (rc_pool_notfound c, "pool not found").
Proof. reflexivity. Qed.

Lemma describe_known {D} (top : string) (w w' : World D)
    (m : gmap string (Z * string)) (name : string) (c : Z) (d : string) :
  StratisdErrorsGen.get_object top w = (Ok m, w') ->
  m !! name = Some (c, d) ->
  exists n' d', StratisdErrorsGen.describe top c w = (Ok (n', d'), w').
Proof.
  intros Hg Hm.
  unfold StratisdErrorsGen.describe, mbind, py_bind, bind.
  rewrite Hg.
  destruct (List.find _ _) as [[n [c' d']]|] eqn:Hf.
  - exists n, d'. reflexivity.
  - exfalso.
    assert (Hin : (name, (c, d)) ∈ map_to_list m)
      by (apply elem_of_map_to_list; exact Hm).
    apply list_elem_of_In in Hin.
    pose proof (List.find_none _ _ Hf _ Hin) as Hn. simpl in Hn.
    rewrite Z.eqb_refl in Hn. discriminate.
Qed.

Lemma sim_mapping_volume_notfound (c : SimCodes) :
  build_mapping (sim_catalog c) !! "STRATIS_VOLUME_NOTFOUND" =
  Some (rc_volume_notfound c, "volume not found").
Proof. reflexivity. Qed.

Lemma sim_mapping_cache_notfound (c : SimCodes) :
  build_mapping (sim_catalog c) !! "STRATIS_CACHE_NOTFOUND" =
  Some (rc_cache_notfound c, "cache not found").
Proof. reflexivity. Qed.

(** The daemon's answer to a resolution that matches no entity. *)
Lemma sim_resolution_misses (top : string) (op : ManagerOp) (s : SimState) :
  codes_nonzero (sim_codes s) ->
  resolution_misses s op ->
  exists rc msg,
    dstep sim (MkCall top (op_name op) (op_args op) Manager._INTERFACE_NAME) s =
      (Returned (status "" rc msg), s) /\
    is_not_found (sim_codes s) rc.
Proof.
  intros (Hp & Hv & Hc) Hmiss. unfold is_not_found.
  destruct op as [| |p| |n| |p v|]; simpl in Hmiss; try contradiction.
  - destruct p as [| | |n| | |]; try contradiction.
    simpl. unfold sim_step. simpl.
    destruct (sim_pools s !! n) as [pl|] eqn:Hl.
    + rewrite Hmiss. eexists _, _. repeat split; eauto.
    + eexists _, _. repeat split; eauto.
  - destruct n as [| | |n| | |]; try contradiction.
    simpl. unfold sim_step. simpl. rewrite Hmiss.
    eexists _, _. repeat split; eauto.
  - destruct p as [| | |n| | |]; try contradiction.
    destruct v as [| | |v| | |]; try contradiction.
    simpl. unfold sim_step. simpl.
    destruct (sim_pools s !! n) as [pl|] eqn:Hl.
    + rewrite (bool_decide_eq_false_2 _ Hmiss).
      eexists _, _. repeat split; eauto.
    + eexists _, _. repeat split; eauto.
Qed.

(** A "not found" status, checked against the catalog: the failure is
    raised with that code, after the catalog has been fetched if it was
    not there yet. *)
Lemma check_status_not_found (top : string) (rc : Z) (w : World sim) :
  catalog_in_step w ->
  is_not_found (sim_codes (remote w)) rc ->
  exists msg w',
    check_status top rc w = (Raise (StratisCliRuntimeError rc msg), w') /\
    trace w' = trace w ++ catalog_fetch top w /\
    remote w' = remote w.
Proof.
  intros Hcat [Hnz Hrc].
  assert (Hg : exists w',
            StratisdErrorsGen.get_object top w =
              (Ok (build_mapping (sim_catalog (sim_codes (remote w)))), w') /\
            trace w' = trace w ++ catalog_fetch top w /\
            remote w' = remote w).
  { unfold catalog_fetch. destruct Hcat as [Hn|Hs].
    - eexists. split.
      + exact (get_object_first top w _ _ (sim_catalog (sim_codes (remote w)))
                 Hn (sim_get_error_codes top (remote w)) eq_refl).
      + rewrite Hn. split; reflexivity.
    - exists w. split; [exact (get_object_cached top _ w Hs)|].
      rewrite Hs, app_nil_r. split; reflexivity. }
  destruct Hg as (w' & Hg & Ht & Hr).
  assert (Hm : exists name d,
            build_mapping (sim_catalog (sim_codes (remote w))) !! name =
            Some (rc, d)).
  { destruct Hrc as [-> | [-> | ->]].
    - eexists _, _. apply sim_mapping_pool_notfound.
    - eexists _, _. apply sim_mapping_volume_notfound.
    - eexists _, _. apply sim_mapping_cache_notfound. }
  destruct Hm as (name & d & Hm).
  destruct (describe_known top w w' _ name rc d Hg Hm) as (n' & d' & Hd).
  exists d', w'. split; [|split; assumption].
  unfold check_status.
  destruct (Z.eqb_spec rc 0) as [E|_]; [contradiction|].
  rewrite (bind_ok _ _ _ _ _ Hd). reflexivity.
Qed.

(** The listing action of the spec's scenarios follows that order. *)
Lemma list_volumes_resolve_then {D} (top pool_name : string) :
  @LogicalActions.list_volumes D top pool_name =
  resolve_then top (OpGetPoolObjectPath (VStr pool_name))
    (fun pool_object_path =>
       r' ← Pool.ListVolumes pool_object_path;
       match r' with
       | VTuple [VList names; VInt rc'; VStr _] =>
           _ ← check_status top rc';
           match as_strings names with
           | Some l => mret l
           | None => raise (ValueError "ListVolumes")
           end
       | _ => raise (ValueError "ListVolumes")
       end).
Proof. reflexivity. Qed.

(** C8.  Against the daemon, each of the three name-to-path resolutions,
    asked for a name that matches no entity, returns a status tuple (an
    ordinary value, not a transport failure) whose code is one of the
    daemon's non-zero "not found" codes.  An action that resolves first
    and then goes on to its primary operation, whatever that operation is,
    fails there with that code: the calls it has put on the bus are the
    resolution and, where the catalog was not fetched before, the catalog
    request; none of them is a mutating operation, the primary operation
    is never started, and the daemon is left as it was. *)
Theorem resolution_fails_before_primary {A : Type} (top : string)
    (op : ManagerOp) (primary : string -> Py sim A) (w : World sim) :
  catalog_in_step w ->
  codes_nonzero (sim_codes (remote w)) ->
  resolution_misses (remote w) op ->
  exists rc reply msg w1 w',
    (new_Manager top ≫= fun mgr => call_op mgr op) w =
      (Ok (status "" rc reply), w1) /\
    is_not_found (sim_codes (remote w)) rc /\
    resolve_then top op primary w =
      (Raise (StratisCliRuntimeError rc msg), w') /\
    trace w' =
      trace w ++
      MkCall top (op_name op) (op_args op) "org.storage.stratis1.Manager"
      :: catalog_fetch top w /\
    Forall (fun c => mutating (c_method c) = false)
           (drop (length (trace w)) (trace w')) /\
    remote w' = remote w.
Proof.
  intros Hcat Hnz Hmiss.
  destruct (sim_resolution_misses top op (remote w) Hnz Hmiss)
    as (rc & reply & Hstep & Hnf).
  set (w1 := MkWorld (<[fresh (dom (heap w)) := MkManagerObj top]> (heap w))
               (catalog w)
               (trace w ++ [MkCall top (op_name op) (op_args op)
                                   Manager._INTERFACE_NAME])
               (remote w)).
  assert (H1 : (new_Manager top ≫= fun mgr => call_op mgr op) w =
               (Ok (status "" rc reply), w1)).
  { rewrite resolve_with_new_Manager, Hstep. reflexivity. }
  destruct (check_status_not_found top rc w1 Hcat Hnf)
    as (msg & w' & Hchk & Ht & Hr).
  exists rc, reply, msg, w1, w'.
  split; [exact H1|]. split; [exact Hnf|].
  assert (Htrace : trace w' =
            trace w ++
            MkCall top (op_name op) (op_args op) "org.storage.stratis1.Manager"
            :: catalog_fetch top w).
  { rewrite Ht. simpl. rewrite <- app_assoc. reflexivity. }
  split; [|split; [exact Htrace|split; [|exact Hr]]].
  - unfold resolve_then.
    unfold mbind at 1, py_bind at 1, bind at 1.
    unfold mbind, py_bind, bind in H1.
    destruct (new_Manager top w) as [[mgr|e] w0] eqn:Hn; [|discriminate].
    unfold mbind at 1, py_bind at 1, bind at 1. rewrite H1.
    unfold status.
    rewrite (bind_raise _ _ _ _ _ Hchk). reflexivity.
  - rewrite Htrace, drop_app_length.
    apply Forall_cons_2.
    + destruct op; simpl in Hmiss; try contradiction; reflexivity.
    + unfold catalog_fetch. destruct (catalog w); [apply Forall_nil_2|].
      apply Forall_cons_2; [reflexivity|apply Forall_nil_2].
Qed.

Lemma resolution_fails_before_primary_witness :
  catalog_in_step (fresh_world live_state) /\
  codes_nonzero (sim_codes live_state) /\
  resolution_misses live_state
    (OpGetVolumeObjectPath (VStr "livepool") (VStr "ghost")) /\
  exists rc msg w',
    resolve_then "/org/storage/stratis1"
      (OpGetVolumeObjectPath (VStr "livepool") (VStr "ghost"))
      (fun _ => mgr ← new_Manager "/org/storage/stratis1";
                Manager.DestroyPool mgr (VStr "livepool"))
      (fresh_world live_state) =
      (Raise (StratisCliRuntimeError rc msg), w') /\
    trace w' =
      [ MkCall "/org/storage/stratis1" "GetVolumeObjectPath"
               [VStr "livepool"; VStr "ghost"] "org.storage.stratis1.Manager";
        get_error_codes_call "/org/storage/stratis1" ] /\
    remote w' = live_state.
Proof.
  assert (Hcat : catalog_in_step (fresh_world live_state))
    by (left; reflexivity).
  assert (Hc : codes_nonzero (sim_codes live_state))
    by (repeat split; discriminate).
  assert (Hm : resolution_misses live_state
                 (OpGetVolumeObjectPath (VStr "livepool") (VStr "ghost"))).
  { change ("ghost" ∉ ["livery"]). intros Hin.
    apply elem_of_cons in Hin as [Hin|Hin]; [discriminate Hin|inversion Hin]. }
  split; [exact Hcat|]. split; [exact Hc|]. split; [exact Hm|].
  destruct (resolution_fails_before_primary "/org/storage/stratis1"
              (OpGetVolumeObjectPath (VStr "livepool") (VStr "ghost"))
              (fun _ => mgr ← new_Manager "/org/storage/stratis1";
                        Manager.DestroyPool mgr (VStr "livepool"))
              (fresh_world live_state) Hcat Hc Hm)
    as (rc & reply & msg & w1 & w' & _ & _ & Hrun & Ht & _ & Hr).
  exists rc, msg, w'. split; [exact Hrun|]. split; [exact Ht|exact Hr].
Defined.

Lemma sim_get_pool_missing (top n : string) (s : SimState) :
  sim_pools s !! n = None ->
  dstep sim (MkCall top "GetPoolObjectPath" [VStr n] Manager._INTERFACE_NAME) s =
  (Returned (status "" (rc_pool_notfound (sim_codes s)) "pool not found"), s).
Proof. intros H. simpl. unfold sim_step. simpl. rewrite H. reflexivity. Qed.

Lemma sim_get_pool_present (top n : string) (p : SimPool) (s : SimState) :
  sim_pools s !! n = Some p ->
  dstep sim (MkCall top "GetPoolObjectPath" [VStr n] Manager._INTERFACE_NAME) s =
  (Returned (status (pool_path n) 0 "ok"), s).
Proof. intros H. simpl. unfold sim_step. simpl. rewrite H. reflexivity. Qed.

Lemma get_pool_object_path_new_Manager {D} (top n : string) (w : World D) :
  (new_Manager top ≫= fun mgr => Manager.GetPoolObjectPath mgr (VStr n)) w =
  (new_Manager top ≫= fun mgr => call_op mgr (OpGetPoolObjectPath (VStr n))) w.
Proof. reflexivity. Qed.

(** A failing status, checked in a process that has not used the catalog
    yet: the catalog is fetched and the failure raised with that code. *)
Lemma check_status_pool_notfound (top : string) (w : World sim) :
  catalog w = None ->
  rc_pool_notfound (sim_codes (remote w)) <> 0 ->
  exists msg,
    check_status top (rc_pool_notfound (sim_codes (remote w))) w =
    (Raise (StratisCliRuntimeError (rc_pool_notfound (sim_codes (remote w))) msg),
     MkWorld (<[fresh (dom (heap w)) := MkManagerObj top]> (heap w))
             (Some (build_mapping (sim_catalog (sim_codes (remote w)))))
             (trace w ++ [get_error_codes_call top]) (remote w)).
Proof.
  intros Hc Hnz.
  pose proof (get_object_first top w _ _ (sim_catalog (sim_codes (remote w)))
                Hc (sim_get_error_codes top (remote w)) eq_refl) as Hg.
  destruct (describe_known top w _ _ _ _ _ Hg
              (sim_mapping_pool_notfound (sim_codes (remote w))))
    as (n' & d' & Hd).
  exists d'. unfold check_status.
  destruct (Z.eqb_spec (rc_pool_notfound (sim_codes (remote w))) 0) as [E|_];
    [contradiction|].
  rewrite (bind_ok _ _ _ _ _ Hd). reflexivity.
Qed.

(** C2.  In a process just started against a daemon that has no pool named
    'deadpool' (and whose "pool not found" code is not the success code),
    running ['filesystem'; 'list'; 'deadpool'] raises StratisCliRuntimeError
    (not a transport error, not an empty result) and the code it carries is
    the one the Error Code Catalog gives for STRATIS_POOL_NOTFOUND. *)
Theorem filesystem_list_unknown_pool (top : string) (w : World sim) :
  catalog w = None ->
  rc_pool_notfound (sim_codes (remote w)) <> 0 ->
  sim_pools (remote w) !! "deadpool" = None ->
  exists prog rc msg w',
    run top ["filesystem"; "list"; "deadpool"] = Some prog /\
    prog w = (Raise (StratisCliRuntimeError rc msg), w') /\
    StratisdErrorsGen.code_for top "STRATIS_POOL_NOTFOUND" w' = (Ok rc, w') /\
    remote w' = remote w.
Proof.
  intros Hc Hnz Hp.
  set (w1 := MkWorld (<[fresh (dom (heap w)) := MkManagerObj top]> (heap w))
               (catalog w)
               (trace w ++ [MkCall top "GetPoolObjectPath" [VStr "deadpool"]
                                   Manager._INTERFACE_NAME])
               (remote w)).
  assert (H1 : (new_Manager top ≫=
                 fun mgr => Manager.GetPoolObjectPath mgr (VStr "deadpool")) w =
               (Ok (status "" (rc_pool_notfound (sim_codes (remote w)))
                           "pool not found"), w1)).
  { rewrite get_pool_object_path_new_Manager, resolve_with_new_Manager.
    simpl op_name. simpl op_args.
    rewrite (sim_get_pool_missing top "deadpool" (remote w) Hp). reflexivity. }
  destruct (check_status_pool_notfound top w1 Hc Hnz) as (msg & Hchk).
  eexists _, (rc_pool_notfound (sim_codes (remote w))), msg, _.
  split; [reflexivity|]. split; [|split].
  - unfold LogicalActions.list_volumes.
    unfold mbind at 1, py_bind at 1, bind at 1.
    unfold mbind, py_bind, bind in H1.
    destruct (new_Manager top w) as [[mgr|e] w0] eqn:Hn; [|discriminate].
    unfold mbind at 1, py_bind at 1, bind at 1. rewrite H1.
    unfold status.
    rewrite (bind_raise _ _ _ _ _ Hchk). reflexivity.
  - unfold StratisdErrorsGen.code_for.
    erewrite bind_ok; [|apply get_object_cached; reflexivity].
    simpl remote. rewrite sim_mapping_pool_notfound. reflexivity.
  - reflexivity.
Qed.

Lemma filesystem_list_unknown_pool_witness :
  catalog (fresh_world (MkSimState demo_codes ∅)) = None /\
  rc_pool_notfound demo_codes <> 0 /\
  sim_pools (MkSimState demo_codes ∅) !! "deadpool" = None /\
  exists prog rc msg w',
    run "/org/storage/stratis1" ["filesystem"; "list"; "deadpool"] = Some prog /\
    prog (fresh_world (MkSimState demo_codes ∅)) =
      (Raise (StratisCliRuntimeError rc msg), w') /\
    StratisdErrorsGen.code_for "/org/storage/stratis1" "STRATIS_POOL_NOTFOUND" w' =
      (Ok rc, w') /\
    remote w' = MkSimState demo_codes ∅.
Proof.
  assert (Hnz : rc_pool_notfound demo_codes <> 0) by discriminate.
  split; [reflexivity|]. split; [exact Hnz|]. split; [reflexivity|].
  apply (filesystem_list_unknown_pool "/org/storage/stratis1"
           (fresh_world (MkSimState demo_codes ∅)));
    [reflexivity | exact Hnz | reflexivity].
Defined.

Lemma as_strings_map_VStr (l : list string) : as_strings (map VStr l) = Some l.
Proof.
  unfold as_strings. induction l as [|s l IH]; simpl; [reflexivity|].
  rewrite IH. reflexivity.
Qed.

Lemma sim_list_volumes (n : string) (p : SimPool) (s : SimState) :
  sim_pools s !! n = Some p ->
  dstep sim (MkCall (pool_path n) "ListVolumes" [] Pool._INTERFACE_NAME) s =
  (Returned (VTuple [VList (map VStr (pool_volumes p)); VInt 0; VStr "ok"]), s).
Proof.
  intros H. simpl. unfold sim_step. simpl. unfold sim_pool, pool_path. simpl.
  change ("" +:+ n) with n. rewrite H. reflexivity.
Qed.

(** Listing the filesystems of a pool the daemon has: the names the daemon
    holds for it, in the daemon's order, after one resolution and one
    listing call. *)
Lemma list_volumes_existing_pool (top pool : string) (p : SimPool)
    (w : World sim) :
  sim_pools (remote w) !! pool = Some p ->
  LogicalActions.list_volumes top pool w =
  (Ok (pool_volumes p),
   MkWorld (<[fresh (dom (heap w)) := MkManagerObj top]> (heap w))
           (catalog w)
           ((trace w ++ [MkCall top "GetPoolObjectPath" [VStr pool]
                                Manager._INTERFACE_NAME])
              ++ [MkCall (pool_path pool) "ListVolumes" []
                         Pool._INTERFACE_NAME])
           (remote w)).
Proof.
  intros Hp.
  set (w1 := MkWorld (<[fresh (dom (heap w)) := MkManagerObj top]> (heap w))
               (catalog w)
               (trace w ++ [MkCall top "GetPoolObjectPath" [VStr pool]
                                   Manager._INTERFACE_NAME])
               (remote w)).
  assert (H1 : (new_Manager top ≫=
                 fun mgr => Manager.GetPoolObjectPath mgr (VStr pool)) w =
               (Ok (status (pool_path pool) 0 "ok"), w1)).
  { rewrite get_pool_object_path_new_Manager, resolve_with_new_Manager.
    simpl op_name. simpl op_args.
    rewrite (sim_get_pool_present top pool p (remote w) Hp). reflexivity. }
  unfold LogicalActions.list_volumes.
  unfold mbind at 1, py_bind at 1, bind at 1.
  unfold mbind, py_bind, bind in H1.
  destruct (new_Manager top w) as [[mgr|e] w0] eqn:Hn; [|discriminate].
  unfold mbind at 1, py_bind at 1, bind at 1. rewrite H1.
  unfold status, check_status. simpl.
  unfold mbind at 1, py_bind at 1, bind at 1. simpl.
  unfold mbind at 1, py_bind at 1, bind at 1.
  unfold Pool.ListVolumes. rewrite proxy_call_spec.
  simpl remote.
  rewrite (sim_list_volumes pool p (remote w) Hp). simpl.
  unfold mbind at 1, py_bind at 1, bind at 1. simpl.
  rewrite as_strings_map_VStr. reflexivity.
Qed.

(** C7.  Against a daemon that has the pool, with no filesystems in it,
    running ['filesystem'; 'list'; pool] raises nothing and yields the
    empty sequence. *)
Theorem filesystem_list_empty_pool (top pool : string) (p : SimPool)
    (w : World sim) :
  sim_pools (remote w) !! pool = Some p ->
  pool_volumes p = [] ->
  exists prog w',
    run top ["filesystem"; "list"; pool] = Some prog /\
    prog w = (Ok [], w') /\
    remote w' = remote w.
Proof.
  intros Hp Hv.
  eexists _, _. split; [reflexivity|].
  rewrite (list_volumes_existing_pool top pool p w Hp), Hv.
  split; reflexivity.
Qed.

Lemma filesystem_list_empty_pool_witness :
  sim_pools (MkSimState demo_codes {[ "deadpool" := MkSimPool [] VNone [] false ]})
    !! "deadpool" = Some (MkSimPool [] VNone [] false) /\
  exists prog w',
    run "/org/storage/stratis1" ["filesystem"; "list"; "deadpool"] = Some prog /\
    prog (fresh_world
            (MkSimState demo_codes
               {[ "deadpool" := MkSimPool [] VNone [] false ]})) = (Ok [], w') /\
    remote w' =
      MkSimState demo_codes {[ "deadpool" := MkSimPool [] VNone [] false ]}.
Proof.
  split; [reflexivity|].
  apply (filesystem_list_empty_pool "/org/storage/stratis1" "deadpool"
           (MkSimPool [] VNone [] false)
           (fresh_world
              (MkSimState demo_codes
                 {[ "deadpool" := MkSimPool [] VNone [] false ]})));
    reflexivity.
Defined.

(** ** The command-line grammar *)

Lemma find_option_in (p : ArgumentParser) (o : string) (a : Argument) :
  find_option p o = Some a -> a ∈ arguments p.
Proof.
  unfold find_option. intros H. apply List.find_some in H as [H _].
  apply list_elem_of_In. exact H.
Qed.

Lemma option_tuples_in (p : ArgumentParser) (o : string) (a : Argument) :
  In a (option_tuples p o) -> a ∈ arguments p.
Proof.
  unfold option_tuples. intros H.
  apply in_flat_map in H as (x & Hx & Ha).
  apply in_map_iff in Ha as (_ & <- & _).
  apply list_elem_of_In. exact Hx.
Qed.

Lemma classify_tok_of (p : ArgumentParser) (s : string) (t : Tok) :
  classify p s = Some (inr t) -> tok_of p t.
Proof.
  unfold classify. destruct s as [|c s']; [intros [= <-]; exact I|].
  destruct (negb (Ascii.eqb c "-")); [intros [= <-]; exact I|].
  destruct (String.eqb (String c s') "--"); [discriminate|].
  destruct (find_option p (String c s')) as [a|] eqn:Hf.
  { intros [= <-]. simpl. exact (find_option_in _ _ _ Hf). }
  destruct (String.eqb (String c s') "-"); [intros [= <-]; exact I|].
  destruct (negb (String.prefix "--" (String c s'))); [discriminate|].
  destruct (split_eq (String c s')) as [o e].
  destruct (match e with Some _ => find_option p o | None => None end)
    as [a|] eqn:Hf'.
  { intros [= <-]. simpl. destruct e; [|discriminate].
    exact (find_option_in _ _ _ Hf'). }
  destruct (option_tuples p o) as [|a [|a' l]] eqn:Ho.
  - destruct (contains_char " " (String c s')); intros [= <-]; exact I.
  - intros [= <-]. simpl. apply (option_tuples_in p o). rewrite Ho. left.
    reflexivity.
  - discriminate.
Qed.

Lemma classify_all_tok_of (p : ArgumentParser) (argv : list string)
    (ts : list Tok) :
  classify_all p argv = Some (inr ts) -> Forall (tok_of p) ts.
Proof.
  revert ts. induction argv as [|s argv IH]; simpl; intros ts.
  - intros [= <-]. constructor.
  - destruct (classify p s) as [[e|t]|] eqn:Hc;
      destruct (classify_all p argv) as [[e'|ts']|]; try discriminate.
    intros [= <-]. constructor; [exact (classify_tok_of p s t Hc)|].
    apply IH. reflexivity.
Qed.

Lemma segments_segs_of (p : ArgumentParser) (ts : list Tok) :
  Forall (tok_of p) ts -> segs_of p (segments ts).
Proof.
  unfold segs_of. induction 1 as [|t ts Ht _ IH]; simpl; [constructor|].
  destruct t as [s|a e raw].
  - destruct (segments ts) as [|[r|a e raw] segs].
    + constructor; [exact I|constructor].
    + constructor; [exact I|]. inversion IH; assumption.
    + constructor; [exact I|]. exact IH.
  - constructor; [exact Ht|exact IH].
Qed.

Lemma take_action_flag (p : ArgumentParser) (a : Argument) (st : PState) :
  action a = store_true ->
  choices a = None ->
  take_action p a [] st =
  if existsb (fun m => bool_decide (m ∈ seen_non_default st))
             (conflicts p (dest a))
  then inr (ParseError ("not allowed with argument " +:+ dest a))
  else inl (MkPState (<[dest a := VBool true]> (ns st)) (dest a :: seen st)
                     (dest a :: seen_non_default st) (pending st) (extras st)).
Proof.
  intros Ha Hc. unfold take_action. rewrite Ha. simpl. reflexivity.
Qed.

Lemma stratisd_arguments :
  arguments stratisd_parser =
  [ help_argument;
    flag_argument "--log-level" false "log level of stratisd daemon";
    flag_argument "--redundancy" false
      "redundancy designations understood by stratisd daemon";
    flag_argument "--version" false "version of stratisd daemon" ].
Proof. reflexivity. Qed.

Lemma conflicts_log_level :
  conflicts stratisd_parser "log_level" = ["redundancy"; "version"].
Proof. reflexivity. Qed.

Lemma conflicts_redundancy :
  conflicts stratisd_parser "redundancy" = ["log_level"; "version"].
Proof. reflexivity. Qed.

Lemma conflicts_version :
  conflicts stratisd_parser "version" = ["log_level"; "redundancy"].
Proof. reflexivity. Qed.

Lemma not_seen_false (d : string) (l : list string) (b : bool) :
  (d ∈ l <-> b = true) -> bool_decide (d ∈ l) = false -> b = false.
Proof.
  intros H Hb. apply bool_decide_eq_false in Hb.
  destruct b; [|reflexivity]. exfalso. apply Hb, H. reflexivity.
Qed.

Lemma seen_cons_same (d : string) (l : list string) :
  d ∈ d :: l <-> true = true.
Proof. split; [reflexivity|]. intros _. apply elem_of_cons. left. reflexivity. Qed.

Lemma seen_cons_other (d d' : string) (l : list string) :
  d <> d' -> (d ∈ l <-> false = true) -> (d ∈ d' :: l <-> false = true).
Proof.
  intros Hne H. split; [|discriminate].
  intros Hin. apply elem_of_cons in Hin as [E|Hin]; [contradiction|].
  apply H. exact Hin.
Qed.

Ltac string_ne := let E := fresh in intros E; discriminate E.

Lemma stratisd_take_action (st st' : PState) (a : Argument) :
  stratisd_inv st ->
  a ∈ arguments stratisd_parser ->
  take_action stratisd_parser a [] st = inl st' ->
  stratisd_inv st'.
Proof.
  intros (Hp & Hf & b1 & b2 & b3 & H1 & H2 & H3 & S1 & S2 & S3 & _) Ha H.
  rewrite stratisd_arguments in Ha.
  apply elem_of_cons in Ha as [->|Ha]; [discriminate H|].
  apply elem_of_cons in Ha as [->|Ha]; [|apply elem_of_cons in Ha as [->|Ha];
    [|apply elem_of_cons in Ha as [->|Ha]; [|inversion Ha]]].
  - rewrite take_action_flag in H by reflexivity.
    change (dest (flag_argument "--log-level" false _)) with "log_level" in H.
    rewrite conflicts_log_level in H. simpl in H.
    destruct (bool_decide ("redundancy" ∈ seen_non_default st)) eqn:E2;
      [discriminate|].
    destruct (bool_decide ("version" ∈ seen_non_default st)) eqn:E3;
      [discriminate|].
    simpl in H. injection H as <-.
    pose proof (not_seen_false _ _ _ S2 E2) as ->.
    pose proof (not_seen_false _ _ _ S3 E3) as ->.
    split; [exact Hp|]. split.
    { simpl. rewrite lookup_insert_ne by string_ne. exact Hf. }
    exists true, false, false. simpl.
    rewrite lookup_insert_eq, !lookup_insert_ne by string_ne.
    split; [reflexivity|]. split; [exact H2|]. split; [exact H3|].
    split; [apply seen_cons_same|].
    split; [apply seen_cons_other; [string_ne|exact S2]|].
    split; [apply seen_cons_other; [string_ne|exact S3]|].
    repeat split.
  - rewrite take_action_flag in H by reflexivity.
    change (dest (flag_argument "--redundancy" false _)) with "redundancy" in H.
    rewrite conflicts_redundancy in H. simpl in H.
    destruct (bool_decide ("log_level" ∈ seen_non_default st)) eqn:E1;
      [discriminate|].
    destruct (bool_decide ("version" ∈ seen_non_default st)) eqn:E3;
      [discriminate|].
    simpl in H. injection H as <-.
    pose proof (not_seen_false _ _ _ S1 E1) as ->.
    pose proof (not_seen_false _ _ _ S3 E3) as ->.
    split; [exact Hp|]. split.
    { simpl. rewrite lookup_insert_ne by string_ne. exact Hf. }
    exists false, true, false. simpl.
    rewrite lookup_insert_eq, !lookup_insert_ne by string_ne.
    split; [exact H1|]. split; [reflexivity|]. split; [exact H3|].
    split; [apply seen_cons_other; [string_ne|exact S1]|].
    split; [apply seen_cons_same|].
    split; [apply seen_cons_other; [string_ne|exact S3]|].
    repeat split.
  - rewrite take_action_flag in H by reflexivity.
    change (dest (flag_argument "--version" false _)) with "version" in H.
    rewrite conflicts_version in H. simpl in H.
    destruct (bool_decide ("log_level" ∈ seen_non_default st)) eqn:E1;
      [discriminate|].
    destruct (bool_decide ("redundancy" ∈ seen_non_default st)) eqn:E2;
      [discriminate|].
    simpl in H. injection H as <-.
    pose proof (not_seen_false _ _ _ S1 E1) as ->.
    pose proof (not_seen_false _ _ _ S2 E2) as ->.
    split; [exact Hp|]. split.
    { simpl. rewrite lookup_insert_ne by string_ne. exact Hf. }
    exists false, false, true. simpl.
    rewrite lookup_insert_eq, !lookup_insert_ne by string_ne.
    split; [exact H1|]. split; [exact H2|]. split; [reflexivity|].
    split; [apply seen_cons_other; [string_ne|exact S1]|].
    split; [apply seen_cons_other; [string_ne|exact S2]|].
    split; [apply seen_cons_same|].
    repeat split.
Qed.

Lemma take_action_not_ok (p : ArgumentParser) (a : Argument)
    (vs : list string) (st : PState) (r : ParseResult) :
  take_action p a vs st = inr r -> forall n, r <> ParseOk n.
Proof.
  unfold take_action. intros H n ->.
  destruct (negb (forallb _ vs)); [discriminate|].
  destruct (existsb _ _); [discriminate|].
  destruct (action a); try discriminate.
  destruct (nargs a); [|discriminate].
  destruct vs as [|v [|v' vs]]; discriminate.
Qed.

Lemma take_actions_not_ok (p : ArgumentParser)
    (l : list (Argument * list string)) :
  forall (st : PState) (r : ParseResult),
    take_actions p l st = inr r -> forall n, r <> ParseOk n.
Proof.
  induction l as [|[a vs] l IH]; intros st r H; simpl in H; [discriminate|].
  destruct (take_action p a vs st) as [st1|r1] eqn:Ht.
  - exact (IH _ _ H).
  - injection H as <-. exact (take_action_not_ok _ _ _ _ _ Ht).
Qed.

Lemma consume_positionals_not_ok (p : ArgumentParser) (run : list string)
    (st : PState) (r : ParseResult) :
  consume_positionals p run st = inr r -> forall n, r <> ParseOk n.
Proof.
  unfold consume_positionals.
  destruct (distribute _ run) as [assigned leftover].
  apply take_actions_not_ok.
Qed.

Lemma consume_not_ok (p : ArgumentParser) (segs : list Seg) :
  forall (ex : option Argument) (st : PState) (r : ParseResult),
    consume p segs ex st = inr r -> forall n, r <> ParseOk n.
Proof.
  induction segs as [|seg segs IH]; intros ex st r H n; simpl in H.
  - destruct ex; [injection H as <-|]; discriminate.
  - destruct seg as [run|oa e raw].
    + destruct ex as [a|].
      * destruct run as [|v r0]; [injection H as <-; discriminate|].
        destruct (take_action p a [v] st) as [st1|r1] eqn:Ht.
        -- destruct (consume_positionals p r0 st1) as [st2|r2] eqn:Hc.
           ++ exact (IH _ _ _ H n).
           ++ injection H as <-. exact (consume_positionals_not_ok _ _ _ _ Hc n).
        -- injection H as <-. exact (take_action_not_ok _ _ _ _ _ Ht n).
      * destruct (consume_positionals p run st) as [st2|r2] eqn:Hc.
        -- exact (IH _ _ _ H n).
        -- injection H as <-. exact (consume_positionals_not_ok _ _ _ _ Hc n).
    + destruct ex as [a|]; [injection H as <-; discriminate|].
      destruct oa as [a|].
      * destruct e as [x|].
        -- destruct (arity a =? 1)%nat; [|injection H as <-; discriminate].
           destruct (take_action p a [x] st) as [st1|r1] eqn:Ht.
           ++ exact (IH _ _ _ H n).
           ++ injection H as <-. exact (take_action_not_ok _ _ _ _ _ Ht n).
        -- destruct (arity a =? 0)%nat; [|exact (IH _ _ _ H n)].
           destruct (take_action p a [] st) as [st1|r1] eqn:Ht.
           ++ exact (IH _ _ _ H n).
           ++ injection H as <-. exact (take_action_not_ok _ _ _ _ _ Ht n).
      * exact (IH _ _ _ H n).
Qed.

Lemma stratisd_inv_frame (st st' : PState) :
  stratisd_inv st ->
  ns st' = ns st ->
  seen_non_default st' = seen_non_default st ->
  pending st' = pending st ->
  stratisd_inv st'.
Proof.
  unfold stratisd_inv. intros H -> -> ->. exact H.
Qed.

Lemma stratisd_arity (a : Argument) :
  a ∈ arguments stratisd_parser -> arity a = 0%nat.
Proof.
  rewrite stratisd_arguments. intros Ha.
  repeat (apply elem_of_cons in Ha as [->|Ha]; [reflexivity|]).
  inversion Ha.
Qed.

Lemma stratisd_consume (segs : list Seg) :
  forall st st' : PState,
    segs_of stratisd_parser segs ->
    stratisd_inv st ->
    consume stratisd_parser segs None st = inl st' ->
    stratisd_inv st'.
Proof.
  induction segs as [|seg segs IH]; intros st st' Hs Hi H; simpl in H.
  - injection H as <-. exact Hi.
  - apply Forall_cons in Hs as [Hseg Hs].
    destruct seg as [run|[a|] e raw].
    + unfold consume_positionals in H.
      destruct Hi as (Hp & Hi). rewrite Hp in H. simpl in H.
      apply (IH _ _ Hs) in H; [exact H|].
      apply (stratisd_inv_frame st);
        [split; assumption|reflexivity|reflexivity|symmetry; exact Hp].
    + pose proof (stratisd_arity a Hseg) as Har.
      destruct e as [x|]; rewrite Har in H; simpl in H; [discriminate|].
      destruct (take_action stratisd_parser a [] st) as [st1|r] eqn:Ht;
        [|discriminate].
      apply (IH _ _ Hs) in H; [exact H|].
      exact (stratisd_take_action st st1 a Hi Hseg Ht).
    + assert (H' : consume stratisd_parser segs None
                     (MkPState (ns st) (seen st) (seen_non_default st)
                               (pending st) (extras st ++ [raw])) = inl st')
        by (destruct e; exact H).
      apply (IH _ _ Hs) in H'; [exact H'|].
      apply (stratisd_inv_frame st); [exact Hi|reflexivity..].
Qed.

Lemma stratisd_initial :
  stratisd_inv (MkPState (initial_namespace stratisd_parser) [] []
                         (List.filter is_positional (arguments stratisd_parser))
                         []).
Proof.
  split; [reflexivity|]. split; [reflexivity|].
  exists false, false, false. simpl.
  repeat split; try reflexivity; try discriminate; intros Hin; inversion Hin.
Qed.

Lemma stratisd_finish (st : PState) (n : gmap string PyVal) :
  stratisd_inv st ->
  finish stratisd_parser st = ParseOk n ->
  exactly_one_flag n /\ n !! "func" = Some (VFunc "StratisActions.dispatch").
Proof.
  intros (Hp & Hf & b1 & b2 & b3 & H1 & H2 & H3 & S1 & S2 & S3 & A12 & A13 & A23)
         H.
  unfold finish in H. rewrite stratisd_arguments in H. simpl in H.
  change (mutex_groups stratisd_parser)
    with [MkMutexGroup true ["log_level"; "redundancy"; "version"]] in H.
  simpl in H.
  assert (E1 : bool_decide ("log_level" ∈ seen_non_default st) = b1).
  { destruct b1; [apply bool_decide_eq_true, S1; reflexivity|].
    apply bool_decide_eq_false. intros Hin. apply S1 in Hin. discriminate. }
  assert (E2 : bool_decide ("redundancy" ∈ seen_non_default st) = b2).
  { destruct b2; [apply bool_decide_eq_true, S2; reflexivity|].
    apply bool_decide_eq_false. intros Hin. apply S2 in Hin. discriminate. }
  assert (E3 : bool_decide ("version" ∈ seen_non_default st) = b3).
  { destruct b3; [apply bool_decide_eq_true, S3; reflexivity|].
    apply bool_decide_eq_false. intros Hin. apply S3 in Hin. discriminate. }
  change (dest_of_option "--log-level") with "log_level" in H.
  change (dest_of_option "--redundancy") with "redundancy" in H.
  change (dest_of_option "--version") with "version" in H.
  rewrite E1, E2, E3 in H.
  unfold exactly_one_flag, flag_of.
  destruct b1, b2, b3; simpl in *; try discriminate;
    destruct (bool_decide (extras st = [])); simpl in H; try discriminate;
    injection H as <-; rewrite H1, H2, H3; auto 10.
Qed.

(** C5.  The [stratisd] parser has one mutually exclusive, required group
    whose members are exactly the three flags [--log-level], [--redundancy]
    and [--version], each a [store_true] flag with default False, and one
    bound action, [StratisActions.dispatch].  Hence every command line that
    parses has exactly one of the three flags set; each flag alone parses;
    no flag, or two different flags, is a usage error. *)
Theorem stratisd_flag_group :
  mutex_groups stratisd_parser =
    [MkMutexGroup true ["log_level"; "redundancy"; "version"]] /\
  arguments stratisd_parser =
    [ help_argument;
      flag_argument "--log-level" false "log level of stratisd daemon";
      flag_argument "--redundancy" false
        "redundancy designations understood by stratisd daemon";
      flag_argument "--version" false "version of stratisd daemon" ] /\
  defaults stratisd_parser = [("func", VFunc "StratisActions.dispatch")] /\
  (forall (argv : list string) (n : gmap string PyVal),
     parse_args stratisd_parser argv = Some (ParseOk n) ->
     exactly_one_flag n /\
     n !! "func" = Some (VFunc "StratisActions.dispatch")) /\
  (forall o : string,
     o ∈ ["--log-level"; "--redundancy"; "--version"] ->
     exists n, parse_args stratisd_parser [o] = Some (ParseOk n) /\
               flag_of n (dest_of_option o) = Some true) /\
  parse_args stratisd_parser [] =
    Some (ParseError "one of the arguments is required") /\
  parse_args stratisd_parser ["--log-level"; "--version"] =
    Some (ParseError "not allowed with argument version").
Proof.
  split; [reflexivity|]. split; [reflexivity|]. split; [reflexivity|].
  split; [|split; [|split; reflexivity]].
  - intros argv n H. unfold parse_args in H.
    change (subparsers stratisd_parser) with
      (@None (string * string * list (string * ArgumentParser))) in H.
    destruct (classify_all stratisd_parser argv) as [[e|ts]|] eqn:Hc;
      try discriminate.
    destruct (consume stratisd_parser (segments ts) None _) as [st|r] eqn:Hk.
    + injection H as H. apply (stratisd_finish st n); [|exact H].
      refine (stratisd_consume (segments ts) _ st _ stratisd_initial Hk).
      apply segments_segs_of, (classify_all_tok_of _ argv). exact Hc.
    + injection H as ->.
      exfalso. exact (consume_not_ok _ _ _ _ _ Hk n eq_refl).
  - intros o Ho.
    repeat (apply elem_of_cons in Ho as [->|Ho];
            [eexists; split; [vm_compute; reflexivity|vm_compute; reflexivity]|]).
    inversion Ho.
Qed.

Lemma create_arguments :
  arguments create_parser =
  [help_argument; name_arg; device_arg; redundancy_arg].
Proof. reflexivity. Qed.

Lemma create_conflicts (d : string) : conflicts create_parser d = [].
Proof. reflexivity. Qed.

Lemma take_action_store_one (p : ArgumentParser) (a : Argument) (v : string)
    (st : PState) :
  action a = store ->
  nargs a = NargsNone ->
  conflicts p (dest a) = [] ->
  take_action p a [v] st =
  if match choices a with
     | Some cs => bool_decide (v ∈ cs)
     | None => true
     end
  then inl (MkPState (<[dest a := VStr v]> (ns st)) (dest a :: seen st)
                     (dest a :: seen_non_default st) (pending st) (extras st))
  else inr (ParseError ("invalid choice for " +:+ dest a)).
Proof.
  intros Ha Hn Hc. unfold take_action. rewrite Ha, Hn, Hc. simpl.
  destruct (choices a) as [cs|]; [destruct (bool_decide (v ∈ cs))|];
    reflexivity.
Qed.

Lemma take_action_store_plus (p : ArgumentParser) (a : Argument)
    (vs : list string) (st : PState) :
  action a = store ->
  nargs a = NargsPlus ->
  choices a = None ->
  conflicts p (dest a) = [] ->
  take_action p a vs st =
  inl (MkPState (<[dest a := VList (map VStr vs)]> (ns st)) (dest a :: seen st)
                (dest a :: seen_non_default st) (pending st) (extras st)).
Proof.
  intros Ha Hn Hch Hc. unfold take_action. rewrite Ha, Hn, Hch, Hc. simpl.
  assert (E : forallb (fun _ : string => true) vs = true)
    by (induction vs; simpl; auto).
  rewrite E. reflexivity.
Qed.

Lemma create_take_name (v : string) (st : PState) :
  create_inv st ->
  exists st1, take_action create_parser name_arg [v] st = inl st1 /\
              create_inv st1 /\ pending st1 = pending st.
Proof.
  intros (Hf & Hr & Hp & Hn & Hd).
  rewrite take_action_store_one by reflexivity. simpl.
  eexists. split; [reflexivity|]. split; [|reflexivity].
  unfold create_inv. simpl.
  rewrite !lookup_insert_ne by string_ne. rewrite lookup_insert_eq.
  split; [exact Hf|]. split; [exact Hr|]. split; [exact Hp|].
  split; [intros _; exists v; first [reflexivity|apply lookup_insert_eq]|].
  intros Hin. apply elem_of_cons in Hin as [E|Hin]; [discriminate E|].
  destruct (Hd Hin) as (d & ds & E). exists d, ds.
    rewrite ?lookup_insert_ne by string_ne. exact E.
Qed.

Lemma create_take_device (v : string) (vs : list string) (st : PState) :
  create_inv st ->
  exists st1, take_action create_parser device_arg (v :: vs) st = inl st1 /\
              create_inv st1 /\ pending st1 = pending st.
Proof.
  intros (Hf & Hr & Hp & Hn & Hd).
  rewrite take_action_store_plus by reflexivity.
  eexists. split; [reflexivity|]. split; [|reflexivity].
  unfold create_inv. simpl.
  rewrite !lookup_insert_ne by string_ne. rewrite lookup_insert_eq.
  split; [exact Hf|]. split; [exact Hr|]. split; [exact Hp|].
  split; [|intros _; exists v, vs; first [reflexivity|apply lookup_insert_eq]].
  intros Hin. apply elem_of_cons in Hin as [E|Hin]; [discriminate E|].
  destruct (Hn Hin) as (x & E). exists x.
  rewrite ?lookup_insert_ne by string_ne. exact E.
Qed.

Lemma create_take_redundancy (v : string) (st st1 : PState) :
  create_inv st ->
  take_action create_parser redundancy_arg [v] st = inl st1 ->
  create_inv st1 /\ pending st1 = pending st.
Proof.
  intros (Hf & Hr & Hp & Hn & Hd).
  rewrite take_action_store_one by reflexivity. simpl.
  destruct (bool_decide (v ∈ ["none"])) eqn:E; [|discriminate].
  apply bool_decide_eq_true in E.
  apply elem_of_cons in E as [->|E]; [|inversion E].
  intros [= <-]. split; [|reflexivity].
  unfold create_inv. simpl.
  rewrite !lookup_insert_ne by string_ne. rewrite lookup_insert_eq.
  split; [exact Hf|]. split; [reflexivity|]. split; [exact Hp|].
  split; intros Hin; apply elem_of_cons in Hin as [E|Hin];
    try discriminate E.
  - destruct (Hn Hin) as (x & E). exists x.
    rewrite ?lookup_insert_ne by string_ne. exact E.
  - destruct (Hd Hin) as (d & ds & E). exists d, ds.
    rewrite ?lookup_insert_ne by string_ne. exact E.
Qed.

(** One string given to any argument of the parser. *)
Lemma create_take_one (a : Argument) (v : string) (st st1 : PState) :
  create_inv st ->
  a ∈ arguments create_parser ->
  take_action create_parser a [v] st = inl st1 ->
  create_inv st1 /\ pending st1 = pending st.
Proof.
  intros Hi Ha H. rewrite create_arguments in Ha.
  apply elem_of_cons in Ha as [->|Ha]; [discriminate H|].
  apply elem_of_cons in Ha as [->|Ha].
  { destruct (create_take_name v st Hi) as (st2 & E & R).
    rewrite E in H. injection H as <-. exact R. }
  apply elem_of_cons in Ha as [->|Ha].
  { destruct (create_take_device v [] st Hi) as (st2 & E & R).
    rewrite E in H. injection H as <-. exact R. }
  apply elem_of_cons in Ha as [->|Ha]; [|inversion Ha].
  exact (create_take_redundancy v st st1 Hi H).
Qed.

Lemma create_inv_frame (st st' : PState) :
  create_inv st ->
  ns st' = ns st ->
  seen st' = seen st ->
  (pending st' = [name_arg; device_arg] \/ pending st' = [device_arg] \/
   pending st' = []) ->
  create_inv st'.
Proof.
  unfold create_inv. intros (Hf & Hr & _ & Hn & Hd) -> -> Hp. auto.
Qed.

Lemma create_consume_positionals (run : list string) (st st1 : PState) :
  create_inv st ->
  consume_positionals create_parser run st = inl st1 ->
  create_inv st1.
Proof.
  intros Hi H. unfold consume_positionals in H.
  pose proof Hi as (_ & _ & Hp & _).
  destruct Hp as [Hp|[Hp|Hp]]; rewrite Hp in H.
  - destruct run as [|v [|v' r]]; cbn -[take_action create_parser] in H.
    + injection H as <-.
      apply (create_inv_frame st); [exact Hi|reflexivity|reflexivity|].
      left. reflexivity.
    + set (st0 := MkPState _ _ _ _ _) in H.
      assert (Hi0 : create_inv st0).
      { apply (create_inv_frame st); [exact Hi|reflexivity|reflexivity|].
        right. left. reflexivity. }
      destruct (create_take_name v st0 Hi0) as (st2 & E & Hi2 & _).
      rewrite E in H. injection H as <-. exact Hi2.
    + set (st0 := MkPState _ _ _ _ _) in H.
      assert (Hi0 : create_inv st0).
      { apply (create_inv_frame st); [exact Hi|reflexivity|reflexivity|].
        right. right. reflexivity. }
      destruct (create_take_name v st0 Hi0) as (st2 & E & Hi2 & _).
      rewrite E in H.
      destruct (create_take_device v' (take (length r) r) st2 Hi2)
        as (st3 & E3 & Hi3 & _).
      rewrite E3 in H. injection H as <-. exact Hi3.
  - destruct run as [|v r]; cbn -[take_action create_parser] in H.
    + injection H as <-.
      apply (create_inv_frame st); [exact Hi|reflexivity|reflexivity|].
      right. left. reflexivity.
    + set (st0 := MkPState _ _ _ _ _) in H.
      assert (Hi0 : create_inv st0).
      { apply (create_inv_frame st); [exact Hi|reflexivity|reflexivity|].
        right. right. reflexivity. }
      destruct (create_take_device v (take (length r) r) st0 Hi0)
        as (st3 & E3 & Hi3 & _).
      rewrite E3 in H. injection H as <-. exact Hi3.
  - cbn -[take_action create_parser] in H. injection H as <-.
    apply (create_inv_frame st); [exact Hi|reflexivity|reflexivity|].
    right. right. reflexivity.
Qed.

Lemma create_arity (a : Argument) :
  a ∈ arguments create_parser ->
  a = help_argument /\ arity a = 0%nat \/ arity a = 1%nat.
Proof.
  rewrite create_arguments. intros Ha.
  apply elem_of_cons in Ha as [->|Ha]; [left; split; reflexivity|].
  right.
  repeat (apply elem_of_cons in Ha as [->|Ha]; [reflexivity|]).
  inversion Ha.
Qed.

Lemma create_consume (segs : list Seg) :
  forall (ex : option Argument) (st st' : PState),
    segs_of create_parser segs ->
    match ex with Some a => a ∈ arguments create_parser | None => True end ->
    create_inv st ->
    consume create_parser segs ex st = inl st' ->
    create_inv st'.
Proof.
  induction segs as [|seg segs IH]; intros ex st st' Hs Hex Hi H; simpl in H.
  - destruct ex; [discriminate|]. injection H as <-. exact Hi.
  - apply Forall_cons in Hs as [Hseg Hs].
    destruct seg as [run|oa e raw].
    + destruct ex as [a|].
      * destruct run as [|v r]; [discriminate|].
        destruct (take_action create_parser a [v] st) as [st1|r1] eqn:Ht;
          [|discriminate].
        destruct (create_take_one a v st st1 Hi Hex Ht) as (Hi1 & _).
        destruct (consume_positionals create_parser r st1) as [st2|r2] eqn:Hc;
          [|discriminate].
        apply (IH None st2 st' Hs I); [|exact H].
        exact (create_consume_positionals r st1 st2 Hi1 Hc).
      * destruct (consume_positionals create_parser run st) as [st2|r2] eqn:Hc;
          [|discriminate].
        apply (IH None st2 st' Hs I); [|exact H].
        exact (create_consume_positionals run st st2 Hi Hc).
    + destruct ex as [a0|]; [discriminate|].
      destruct oa as [a|].
      * destruct (create_arity a Hseg) as [[-> Har]|Har].
        -- destruct e as [x|]; simpl in H; discriminate.
        -- destruct e as [x|]; rewrite Har in H; simpl in H.
           ++ destruct (take_action create_parser a [x] st) as [st1|r1] eqn:Ht;
                [|discriminate].
              destruct (create_take_one a x st st1 Hi Hseg Ht) as (Hi1 & _).
              exact (IH None st1 st' Hs I Hi1 H).
           ++ exact (IH (Some a) st st' Hs Hseg Hi H).
      * assert (H' : consume create_parser segs None
                       (MkPState (ns st) (seen st) (seen_non_default st)
                                 (pending st) (extras st ++ [raw])) = inl st')
          by (destruct e; exact H).
        refine (IH None _ st' Hs I _ H').
        apply (create_inv_frame st); [exact Hi|reflexivity|reflexivity|].
        destruct Hi as (_ & _ & Hp & _). exact Hp.
Qed.

Lemma create_initial :
  create_inv (MkPState (initial_namespace create_parser) [] []
                       (List.filter is_positional (arguments create_parser)) []).
Proof.
  split; [reflexivity|]. split; [reflexivity|]. split; [left; reflexivity|].
  split; intros Hin; inversion Hin.
Qed.

Lemma create_finish (st : PState) (n : gmap string PyVal) :
  create_inv st ->
  finish create_parser st = ParseOk n ->
  create_namespace n.
Proof.
  intros (Hf & Hr & Hp & Hn & Hd) H.
  unfold finish in H. rewrite create_arguments in H. simpl in H.
  destruct (bool_decide ("name" ∈ seen st)) eqn:E1; simpl in H;
    [|discriminate].
  destruct (bool_decide ("device" ∈ seen st)) eqn:E2; simpl in H;
    [|discriminate].
  change (mutex_groups create_parser) with (@nil MutexGroup) in H. simpl in H.
  destruct (bool_decide (extras st = [])); simpl in H; [|discriminate].
  injection H as <-.
  apply bool_decide_eq_true in E1, E2.
  split; [exact (Hn E1)|]. split; [exact (Hd E2)|]. split; assumption.
Qed.

Lemma classify_plain (p : ArgumentParser) (s : string) :
  plain s -> classify p s = Some (inr (TPos s)).
Proof.
  destruct s as [|c s]; simpl; [reflexivity|]. intros Hc.
  destruct (Ascii.eqb_spec c "-") as [E|_]; [contradiction|]. reflexivity.
Qed.

Lemma classify_all_plain (p : ArgumentParser) (l : list string) :
  Forall plain l -> classify_all p l = Some (inr (map TPos l)).
Proof.
  induction 1 as [|s l Hs _ IH]; simpl; [reflexivity|].
  rewrite (classify_plain p s Hs), IH. reflexivity.
Qed.

Lemma segments_plain (s : string) (l : list string) :
  segments (map TPos (s :: l)) = [SegRun (s :: l)].
Proof.
  revert s. induction l as [|x l IH]; intros s; [reflexivity|].
  change (segments (map TPos (s :: x :: l)))
    with (match segments (map TPos (x :: l)) with
          | SegRun r :: segs => SegRun (s :: r) :: segs
          | segs => SegRun [s] :: segs
          end).
  rewrite IH. reflexivity.
Qed.

(** C9.  The [create] parser declares, after the help option, the
    positional [name] (one string), the positional [device] (one or more
    strings), and the option [--redundancy] whose choices are ['none'] and
    whose default is 'none'; it binds [TopActions.create_pool].  Hence every
    command line that parses leaves a pool name, at least one device and
    redundancy 'none'; a name followed by one or more devices parses, the
    flag left at its default; a name alone, or another redundancy value, is
    a usage error. *)
Theorem create_grammar :
  arguments create_parser =
    [ help_argument;
      MkArgument [] "name" store NargsNone None (Some VNone)
                 "name to assign to pool" None;
      MkArgument [] "device" store NargsPlus None (Some VNone)
                 "make device D a member of this pool" (Some "D");
      MkArgument ["--redundancy"] "redundancy" store NargsNone (Some ["none"])
                 (Some (VStr "none")) "redundancy selection for this pool"
                 None ] /\
  mutex_groups create_parser = [] /\
  defaults create_parser = [("func", VFunc "TopActions.create_pool")] /\
  (forall (argv : list string) (n : gmap string PyVal),
     parse_args create_parser argv = Some (ParseOk n) -> create_namespace n) /\
  (forall (name d : string) (devs : list string),
     plain name -> plain d -> Forall plain devs ->
     parse_args create_parser (name :: d :: devs) =
     Some (ParseOk (<["device" := VList (map VStr (d :: devs))]>
                      (<["name" := VStr name]>
                         (initial_namespace create_parser))))) /\
  initial_namespace create_parser !! "redundancy" = Some (VStr "none") /\
  parse_args create_parser ["p"] =
    Some (ParseError "the following arguments are required") /\
  parse_args create_parser ["p"; "d"; "--redundancy"; "none"] =
    parse_args create_parser ["p"; "d"] /\
  parse_args create_parser ["p"; "d"; "--redundancy"; "raid5"] =
    Some (ParseError "invalid choice for redundancy").
Proof.
  split; [reflexivity|]. split; [reflexivity|]. split; [reflexivity|].
  split; [|split; [|split; [reflexivity|split; [reflexivity|split]]]].
  - intros argv n H. unfold parse_args in H.
    change (subparsers create_parser) with
      (@None (string * string * list (string * ArgumentParser))) in H.
    destruct (classify_all create_parser argv) as [[e|ts]|] eqn:Hc;
      try discriminate.
    destruct (consume create_parser (segments ts) None _) as [st|r] eqn:Hk.
    + injection H as H. apply (create_finish st n); [|exact H].
      refine (create_consume (segments ts) None _ st _ I create_initial Hk).
      apply segments_segs_of, (classify_all_tok_of _ argv). exact Hc.
    + injection H as ->.
      exfalso. exact (consume_not_ok _ _ _ _ _ Hk n eq_refl).
  - intros name d devs Hn Hd Hds. unfold parse_args.
    change (subparsers create_parser) with
      (@None (string * string * list (string * ArgumentParser))).
    rewrite (classify_all_plain create_parser (name :: d :: devs))
      by (repeat constructor; assumption).
    rewrite segments_plain.
    cbn -[take_action initial_namespace create_parser].
    unfold consume_positionals.
    change (pending _) with [name_arg; device_arg].
    cbn -[take_action initial_namespace create_parser].
    rewrite take_action_store_one by reflexivity.
    cbn -[take_action initial_namespace create_parser].
    rewrite take_action_store_plus by reflexivity.
    rewrite ?firstn_all, ?drop_all. reflexivity.
  - vm_compute. reflexivity.
  - reflexivity.
Qed.

Lemma find_func_filtered (l : list (string * PyVal)) (v : PyVal) :
  List.find (fun kv : string * PyVal => String.eqb kv.1 "func")
            (filter (fun kv : string * PyVal => kv.1 <> "func") l
               ++ [("func", v)]) =
  Some ("func", v).
Proof.
  induction l as [|[k x] l IH]; [reflexivity|].
  rewrite filter_cons. simpl.
  destruct (decide (k <> "func")) as [Hne|He]; [|exact IH].
  simpl. destruct (String.eqb_spec k "func") as [E|_]; [contradiction|].
  exact IH.
Qed.

Lemma bound_action_set_defaults (v : PyVal) (p : ArgumentParser) :
  bound_action (set_defaults "func" v p) = Some v.
Proof.
  unfold bound_action, set_defaults. simpl.
  rewrite find_func_filtered. reflexivity.
Qed.

Lemma register_table (name d : string)
    (st : option ArgumentParser * gmap string Builder) :
  (register name d st).2 = st.2.
Proof.
  destruct st as [[p|] table]; simpl; [|reflexivity].
  destruct (table !! name); reflexivity.
Qed.

Lemma register_Some (name d : string) (sub : ArgumentParser)
    (table : gmap string Builder) (build : Builder)
    (pr de : string) (ar : list Argument) (mu : list MutexGroup)
    (dfl : list (string * PyVal))
    (dd t : string) (subs : list (string * ArgumentParser)) :
  table !! name = Some build ->
  build (new_parser (pr +:+ " " +:+ name) d) = Some sub ->
  register name d (Some (MkParser pr de ar mu dfl (Some (dd, t, subs))), table) =
  (Some (MkParser pr de ar mu dfl (Some (dd, t, subs ++ [(name, sub)]))),
   table).
Proof.
  intros Ht Hb. unfold register, add_parser. simpl.
  unfold Builder in *. rewrite Ht, Hb. reflexivity.
Qed.

Lemma builders_return :
  build_create_parser (subcommand_parser "create" "Create New Stratis Pool") =
    Some create_parser /\
  build_destroy_parser
    (subcommand_parser "destroy" "Destroy Existing Stratis Pool") =
    Some destroy_parser /\
  build_list_parser (subcommand_parser "list" "List Stratis Pools") =
    Some list_parser /\
  build_stratisd_parser
    (subcommand_parser "stratisd" "Information about Stratisd") =
    Some stratisd_parser /\
  build_rename_parser (subcommand_parser "rename" "Rename a Pool") =
    Some rename_parser.
Proof. repeat split; reflexivity. Qed.

(** Whenever one of the five builders returns, it has bound its action. *)
Lemma builders_bind (p p' : ArgumentParser) :
  (build_create_parser p = Some p' ->
   bound_action p' = Some (VFunc "TopActions.create_pool")) /\
  (build_destroy_parser p = Some p' ->
   bound_action p' = Some (VFunc "TopActions.destroy_pool")) /\
  (build_list_parser p = Some p' ->
   bound_action p' = Some (VFunc "TopActions.list_pools")) /\
  (build_rename_parser p = Some p' ->
   bound_action p' = Some (VFunc "TopActions.rename_pool")) /\
  (build_stratisd_parser p = Some p' ->
   bound_action p' = Some (VFunc "StratisActions.dispatch")).
Proof.
  repeat split; intros H.
  - unfold build_create_parser in H.
    repeat (apply bind_Some in H as (? & _ & H)).
    injection H as <-. apply bound_action_set_defaults.
  - unfold build_destroy_parser in H.
    repeat (apply bind_Some in H as (? & _ & H)).
    injection H as <-. apply bound_action_set_defaults.
  - injection H as <-. apply bound_action_set_defaults.
  - unfold build_rename_parser in H.
    repeat (apply bind_Some in H as (? & _ & H)).
    injection H as <-. apply bound_action_set_defaults.
  - unfold build_stratisd_parser, add_mutually_exclusive_group in H.
    repeat (apply bind_Some in H as (? & _ & H)).
    injection H as <-. apply bound_action_set_defaults.
Qed.

(** C6.  The command table has exactly the seven keys create, destroy,
    list, rename, blockdev, filesystem and stratisd, each mapped to its
    builder.  Where the two imported builders return on their new parsers
    and bind an action there, [gen_parser] returns a parser that registers
    all seven subcommands, each with the parser its builder leaves, and
    every one of them binds an action.  The five builders given in the
    module declare exactly the arguments and the exclusive group listed
    here, after the help option of a new parser, and bind the action
    listed; each of them binds that action whenever it returns, whatever
    parser it was handed.  [gen_parser] leaves the table as it found it. *)
Theorem gen_parser_registers_table (__version__ : string)
    (build_physical_parser build_logical_parser : Builder)
    (blockdev_parser filesystem_parser : ArgumentParser)
    (Hphysical :
       build_physical_parser
         (subcommand_parser "blockdev"
            "Administer Blockdev Aspects of Specified Pool") =
       Some blockdev_parser)
    (Hlogical :
       build_logical_parser
         (subcommand_parser "filesystem"
            "Administer Filesystems Aspects of Specified Pool") =
       Some filesystem_parser)
    (Hblockdev : binds_action blockdev_parser)
    (Hfilesystem : binds_action filesystem_parser) :
  let table := _SUBPARSER_TABLE build_physical_parser build_logical_parser in
  dom table =
    list_to_set ["blockdev"; "create"; "destroy"; "list"; "filesystem";
                 "stratisd"; "rename"] /\
  (table !! "blockdev" = Some build_physical_parser /\
   table !! "create" = Some build_create_parser /\
   table !! "destroy" = Some build_destroy_parser /\
   table !! "list" = Some build_list_parser /\
   table !! "filesystem" = Some build_logical_parser /\
   table !! "stratisd" = Some build_stratisd_parser /\
   table !! "rename" = Some build_rename_parser) /\
  (exists parser,
     gen_parser __version__ table = (Some parser, table) /\
     registered parser =
       [ ("blockdev", blockdev_parser); ("create", create_parser);
         ("destroy", destroy_parser); ("filesystem", filesystem_parser);
         ("list", list_parser); ("stratisd", stratisd_parser);
         ("rename", rename_parser) ] /\
     Forall (fun np : string * ArgumentParser => binds_action np.2)
            (registered parser)) /\
  (build_create_parser (subcommand_parser "create" "Create New Stratis Pool") =
     Some create_parser /\
   arguments create_parser =
     [ help_argument;
       MkArgument [] "name" store NargsNone None (Some VNone)
                  "name to assign to pool" None;
       MkArgument [] "device" store NargsPlus None (Some VNone)
                  "make device D a member of this pool" (Some "D");
       MkArgument ["--redundancy"] "redundancy" store NargsNone
                  (Some ["none"]) (Some (VStr "none"))
                  "redundancy selection for this pool" None ] /\
   mutex_groups create_parser = [] /\
   bound_action create_parser = Some (VFunc "TopActions.create_pool")) /\
  (build_destroy_parser
     (subcommand_parser "destroy" "Destroy Existing Stratis Pool") =
     Some destroy_parser /\
   arguments destroy_parser =
     [ help_argument;
       MkArgument [] "name" store NargsNone None (Some VNone)
                  "name of pool" None ] /\
   mutex_groups destroy_parser = [] /\
   bound_action destroy_parser = Some (VFunc "TopActions.destroy_pool")) /\
  (build_list_parser (subcommand_parser "list" "List Stratis Pools") =
     Some list_parser /\
   arguments list_parser = [help_argument] /\
   mutex_groups list_parser = [] /\
   bound_action list_parser = Some (VFunc "TopActions.list_pools")) /\
  (build_rename_parser (subcommand_parser "rename" "Rename a Pool") =
     Some rename_parser /\
   arguments rename_parser =
     [ help_argument;
       MkArgument [] "current" store NargsNone None (Some VNone)
                  "current name of pool" None;
       MkArgument [] "new" store NargsNone None (Some VNone)
                  "desired name" None ] /\
   mutex_groups rename_parser = [] /\
   bound_action rename_parser = Some (VFunc "TopActions.rename_pool")) /\
  (build_stratisd_parser
     (subcommand_parser "stratisd" "Information about Stratisd") =
     Some stratisd_parser /\
   arguments stratisd_parser =
     [ help_argument;
       MkArgument ["--log-level"] "log_level" store_true NargsNone None
                  (Some (VBool false)) "log level of stratisd daemon" None;
       MkArgument ["--redundancy"] "redundancy" store_true NargsNone None
                  (Some (VBool false))
                  "redundancy designations understood by stratisd daemon"
                  None;
       MkArgument ["--version"] "version" store_true NargsNone None
                  (Some (VBool false)) "version of stratisd daemon" None ] /\
   mutex_groups stratisd_parser =
     [MkMutexGroup true ["log_level"; "redundancy"; "version"]] /\
   bound_action stratisd_parser = Some (VFunc "StratisActions.dispatch")) /\
  (forall p p' : ArgumentParser,
     (build_create_parser p = Some p' ->
      bound_action p' = Some (VFunc "TopActions.create_pool")) /\
     (build_destroy_parser p = Some p' ->
      bound_action p' = Some (VFunc "TopActions.destroy_pool")) /\
     (build_list_parser p = Some p' ->
      bound_action p' = Some (VFunc "TopActions.list_pools")) /\
     (build_rename_parser p = Some p' ->
      bound_action p' = Some (VFunc "TopActions.rename_pool")) /\
     (build_stratisd_parser p = Some p' ->
      bound_action p' = Some (VFunc "StratisActions.dispatch"))) /\
  (forall g : gmap string Builder, (gen_parser __version__ g).2 = g).
Proof.
  intros table. subst table.
  split; [|split; [|split; [|split; [|split; [|split; [|split; [|split;
    [|split]]]]]]]].
  - unfold _SUBPARSER_TABLE. rewrite !dom_insert_L, dom_singleton_L.
    simpl. rewrite (right_id_L ∅ (∪)). reflexivity.
  - repeat split; reflexivity.
  - destruct builders_return as (Hc & Hd & Hl & Hs & Hr).
    unfold gen_parser. cbn -[register _SUBPARSER_TABLE].
    unfold add_subparsers. cbn -[register _SUBPARSER_TABLE].
    erewrite (register_Some "blockdev");
      [|reflexivity|exact Hphysical].
    erewrite (register_Some "create"); [|reflexivity|exact Hc].
    erewrite (register_Some "destroy"); [|reflexivity|exact Hd].
    erewrite (register_Some "filesystem");
      [|reflexivity|exact Hlogical].
    erewrite (register_Some "list"); [|reflexivity|exact Hl].
    erewrite (register_Some "stratisd"); [|reflexivity|exact Hs].
    erewrite (register_Some "rename"); [|reflexivity|exact Hr].
    eexists. split; [reflexivity|]. split; [reflexivity|].
    unfold registered; simpl.
    repeat apply Forall_cons_2; try apply Forall_nil_2; simpl;
      try assumption; left; eexists; reflexivity.
  - repeat split; reflexivity.
  - repeat split; reflexivity.
  - repeat split; reflexivity.
  - repeat split; reflexivity.
  - repeat split; reflexivity.
  - intros p p'. exact (builders_bind p p').
  - intros g. unfold gen_parser. rewrite !register_table. reflexivity.
Qed.

Lemma gen_parser_registers_table_witness :
  build_list_parser
    (subcommand_parser "blockdev"
       "Administer Blockdev Aspects of Specified Pool") =
    Some (built build_list_parser
            (subcommand_parser "blockdev"
               "Administer Blockdev Aspects of Specified Pool")) /\
  two_tier_builder
    (subcommand_parser "filesystem"
       "Administer Filesystems Aspects of Specified Pool") =
    Some (built two_tier_builder
            (subcommand_parser "filesystem"
               "Administer Filesystems Aspects of Specified Pool")) /\
  binds_action
    (built build_list_parser
       (subcommand_parser "blockdev"
          "Administer Blockdev Aspects of Specified Pool")) /\
  binds_action
    (built two_tier_builder
       (subcommand_parser "filesystem"
          "Administer Filesystems Aspects of Specified Pool")) /\
  exists parser,
    gen_parser "0.0.1" (_SUBPARSER_TABLE build_list_parser two_tier_builder) =
      (Some parser, _SUBPARSER_TABLE build_list_parser two_tier_builder) /\
    (registered parser).*1 = subcommand_names.
Proof.
  assert (Hb : binds_action
                 (built build_list_parser
                    (subcommand_parser "blockdev"
                       "Administer Blockdev Aspects of Specified Pool"))).
  { left. eexists. reflexivity. }
  assert (Hf : binds_action
                 (built two_tier_builder
                    (subcommand_parser "filesystem"
                       "Administer Filesystems Aspects of Specified Pool"))).
  { right. split; [discriminate|].
    apply Forall_cons_2; [eexists; reflexivity|apply Forall_nil_2]. }
  split; [reflexivity|]. split; [reflexivity|].
  split; [exact Hb|]. split; [exact Hf|].
  destruct (gen_parser_registers_table "0.0.1" build_list_parser
              two_tier_builder _ _ eq_refl eq_refl Hb Hf)
    as (_ & _ & (parser & Hg & Hr & _) & _).
  exists parser. split; [exact Hg|]. rewrite Hr. reflexivity.
Defined.

(** ** More on the Manager wrapper *)

(** X1.  Constructing a wrapper sends nothing and touches no other object;
    every operation of the wrapper then addresses exactly the proxy given
    to the constructor. *)
Theorem manager_init_then_call (D : Daemon) (self : loc) (dbus_object : string)
    (op : ManagerOp) (w : World D) :
  let w1 := (Manager.__init__ self dbus_object w).2 in
  let c := MkCall dbus_object (op_name op) (op_args op)
                  "org.storage.stratis1.Manager" in
  trace w1 = trace w /\ remote w1 = remote w /\ catalog w1 = catalog w /\
  (forall other : loc, other <> self -> heap w1 !! other = heap w !! other) /\
  call_op self op w1 =
    (outcome_of_reply (dstep D c (remote w)).1,
     MkWorld (<[self := MkManagerObj dbus_object]> (heap w)) (catalog w)
             (trace w ++ [c]) (dstep D c (remote w)).2).
Proof.
  intros w1 c. subst w1 c. simpl.
  split; [reflexivity|]. split; [reflexivity|]. split; [reflexivity|].
  split.
  - intros other Hne. apply lookup_insert_ne. congruence.
  - rewrite (call_op_proxy_call self (MkManagerObj dbus_object) op _
               (lookup_insert_eq _ _ _)).
    rewrite proxy_call_spec. reflexivity.
Qed.

Lemma use_member_spec {D} (self : loc) (o : ManagerObj) (m : ManagerMember)
    (w : World D) :
  heap w !! self = Some o ->
  (use_member self m w).2 =
  MkWorld (heap w) (catalog w)
          (trace w ++ [call_of_member (_dbus_object o) m])
          (dstep D (call_of_member (_dbus_object o) m) (remote w)).2.
Proof.
  intros H. destruct m as [op| |]; simpl.
  - rewrite (call_op_proxy_call self o op w H), proxy_call_spec. reflexivity.
  - unfold Manager.Version. rewrite (bind_get_dbus_object self o _ w H).
    unfold Properties.Get. rewrite proxy_call_spec. reflexivity.
  - unfold Manager.LogLevel. rewrite (bind_get_dbus_object self o _ w H).
    unfold Properties.Get. rewrite proxy_call_spec. reflexivity.
Qed.

(** X2.  A program that uses a wrapper n times, methods and properties in
    any order, puts exactly n calls on the bus, one per use and in program
    order, all on the wrapper's proxy; the daemon has answered exactly those
    calls, and nothing else of the client has changed. *)
Theorem manager_uses_trace (D : Daemon) (self : loc) (o : ManagerObj)
    (ms : list ManagerMember) (w : World D) :
  heap w !! self = Some o ->
  use_members self ms w =
  MkWorld (heap w) (catalog w)
          (trace w ++ map (call_of_member (_dbus_object o)) ms)
          (daemon_after D (map (call_of_member (_dbus_object o)) ms) (remote w)).
Proof.
  revert w. induction ms as [|m ms IH]; intros w H; simpl.
  - rewrite app_nil_r. destruct w; reflexivity.
  - rewrite (use_member_spec self o m w H).
    rewrite IH by exact H. simpl.
    rewrite <- app_assoc. reflexivity.
Qed.

Lemma manager_uses_trace_witness :
  heap demo_world !! 1%positive = Some (MkManagerObj "/org/storage/stratis1") /\
  trace (use_members 1%positive
           [Method (OpCreatePool (VStr "p") (VList [VStr "/dev/sda"]) (VInt 0));
            PropVersion; Method OpListPools] demo_world) =
  [ MkCall "/org/storage/stratis1" "CreatePool"
           [VStr "p"; VList [VStr "/dev/sda"]; VInt 0]
           "org.storage.stratis1.Manager";
    MkCall "/org/storage/stratis1" "Get"
           [VStr "org.storage.stratis1.Manager"; VStr "Version"]
           "org.freedesktop.DBus.Properties";
    MkCall "/org/storage/stratis1" "ListPools" []
           "org.storage.stratis1.Manager" ].
Proof.
  split; [reflexivity|].
  rewrite (manager_uses_trace sim 1%positive
             (MkManagerObj "/org/storage/stratis1") _ demo_world eq_refl).
  reflexivity.
Defined.

(** ** More on the grammar builders *)

(** X3.  [gen_parser] looks each of its seven subcommand names up in the
    table and runs the builder found on a new parser: it returns a parser
    exactly when the table has all seven keys (a missing key is a KeyError)
    and none of the seven builders raises on its new parser; the
    subcommands it then registers are those seven, in the order of the
    code, whatever else the table holds. *)
Theorem gen_parser_KeyError (__version__ : string) (g : gmap string Builder) :
  (is_Some (gen_parser __version__ g).1 <->
   Forall (fun nd : string * string =>
             exists build, g !! nd.1 = Some build /\
                           is_Some (build (subcommand_parser nd.1 nd.2)))
          subcommands) /\
  (is_Some (gen_parser __version__ g).1 ->
   Forall (fun k => is_Some (g !! k)) subcommand_names) /\
  (forall parser,
     (gen_parser __version__ g).1 = Some parser ->
     (registered parser).*1 = subcommand_names).
Proof.
  assert (Hall : forall parser,
            (gen_parser __version__ g).1 = Some parser ->
            Forall (fun nd : string * string =>
                      exists build, g !! nd.1 = Some build /\
                        is_Some (build (subcommand_parser nd.1 nd.2)))
                   subcommands /\
            (registered parser).*1 = subcommand_names).
  { intros parser Hp. unfold gen_parser in Hp.
    cbn -[register] in Hp. unfold add_subparsers in Hp.
    cbn -[register] in Hp. unfold register, add_parser in Hp.
    cbn [subparsers prog description arguments mutex_groups defaults] in Hp.
    destruct (g !! "blockdev") as [b1|] eqn:E1; [|discriminate Hp].
    destruct (b1 _) as [s1|] eqn:B1; [|discriminate Hp].
    cbn [mbind option_bind subparsers prog description arguments
         mutex_groups defaults] in Hp.
    destruct (g !! "create") as [b2|] eqn:E2; [|discriminate Hp].
    destruct (b2 _) as [s2|] eqn:B2; [|discriminate Hp].
    cbn [mbind option_bind subparsers prog description arguments
         mutex_groups defaults] in Hp.
    destruct (g !! "destroy") as [b3|] eqn:E3; [|discriminate Hp].
    destruct (b3 _) as [s3|] eqn:B3; [|discriminate Hp].
    cbn [mbind option_bind subparsers prog description arguments
         mutex_groups defaults] in Hp.
    destruct (g !! "filesystem") as [b4|] eqn:E4; [|discriminate Hp].
    destruct (b4 _) as [s4|] eqn:B4; [|discriminate Hp].
    cbn [mbind option_bind subparsers prog description arguments
         mutex_groups defaults] in Hp.
    destruct (g !! "list") as [b5|] eqn:E5; [|discriminate Hp].
    destruct (b5 _) as [s5|] eqn:B5; [|discriminate Hp].
    cbn [mbind option_bind subparsers prog description arguments
         mutex_groups defaults] in Hp.
    destruct (g !! "stratisd") as [b6|] eqn:E6; [|discriminate Hp].
    destruct (b6 _) as [s6|] eqn:B6; [|discriminate Hp].
    cbn [mbind option_bind subparsers prog description arguments
         mutex_groups defaults] in Hp.
    destruct (g !! "rename") as [b7|] eqn:E7; [|discriminate Hp].
    destruct (b7 _) as [s7|] eqn:B7; [|discriminate Hp].
    cbn [mbind option_bind subparsers prog description arguments
         mutex_groups defaults] in Hp.
    simpl in Hp. injection Hp as <-. split; [|reflexivity].
    unfold subcommands.
    repeat (apply Forall_cons_2;
            [eexists; split; [eassumption|eexists; eassumption]|]).
    apply Forall_nil_2. }
  split; [split|split].
  - intros [parser Hp]. exact (proj1 (Hall parser Hp)).
  - intros HF. unfold subcommands in HF.
    repeat (apply Forall_cons in HF as [(? & ?E & [? ?B]) HF]).
    cbv beta in *. cbn [fst snd] in *. unfold gen_parser.
    cbn -[register]. unfold add_subparsers. cbn -[register].
    unfold Builder in *.
    repeat (erewrite register_Some; [|eassumption|eassumption]).
    eexists. reflexivity.
  - intros [parser Hp]. destruct (Hall parser Hp) as [HF _].
    unfold subcommands in HF. unfold subcommand_names.
    repeat (apply Forall_cons in HF as [(? & ?E & _) HF]).
    cbn [fst snd] in *.
    repeat (apply Forall_cons_2; [eexists; eassumption|]).
    apply Forall_nil_2.
  - intros parser Hp. exact (proj2 (Hall parser Hp)).
Qed.

Lemma alter_at_length {A} (f : A -> A) (l : list A) (x : A) (k : list A) :
  alter f (length l) (l ++ x :: k) = l ++ f x :: k.
Proof.
  induction l as [|y l IH]; simpl; [reflexivity|].
  f_equal. exact IH.
Qed.

Lemma set_defaults_arguments (key : string) (v : PyVal) (p : ArgumentParser) :
  Forall (fun a => dest a <> key) (arguments p) ->
  arguments (set_defaults key v p) = arguments p.
Proof.
  unfold set_defaults. simpl. intros H.
  induction H as [|a l Ha _ IH]; simpl; [reflexivity|].
  destruct (String.eqb_spec (dest a) key) as [E|_]; [contradiction|].
  f_equal. exact IH.
Qed.

Lemma Forall_app_dest (key : string) (l k : list Argument) :
  Forall (fun a => dest a <> key) l ->
  Forall (fun a => dest a <> key) k ->
  Forall (fun a => dest a <> key) (l ++ k).
Proof. intros Hl Hk. apply Forall_app. split; assumption. Qed.

Lemma existsb_eqb_elem_of (o : string) (l : list string) :
  existsb (String.eqb o) l = true <-> o ∈ l.
Proof.
  rewrite existsb_exists. split.
  - intros (x & Hx & E). apply String.eqb_eq in E as ->.
    apply list_elem_of_In. exact Hx.
  - intros H. exists o. split; [apply list_elem_of_In; exact H|].
    apply String.eqb_refl.
Qed.

Lemma group_add_flag (g : nat) (o : string) (d : bool) (h : string)
    (pr de : string) (ar : list Argument) (mu : list MutexGroup)
    (dfl : list (string * PyVal))
    (su : option (string * string * list (string * ArgumentParser))) :
  group_add_argument g (flag_argument o d h) (MkParser pr de ar mu dfl su) =
  if existsb (String.eqb o) (flat_map option_strings ar) then None
  else Some (MkParser pr de (ar ++ [flag_argument o d h])
               (alter (fun gr => MkMutexGroup (required gr)
                                   (members gr ++ [dest_of_option o]))
                      g mu)
               dfl su).
Proof.
  unfold group_add_argument, conflicting, known_option_strings. simpl.
  rewrite orb_false_r. reflexivity.
Qed.

Lemma add_one_option (a : Argument) (o : string)
    (pr de : string) (ar : list Argument) (mu : list MutexGroup)
    (dfl : list (string * PyVal))
    (su : option (string * string * list (string * ArgumentParser))) :
  option_strings a = [o] ->
  add_argument a (MkParser pr de ar mu dfl su) =
  if existsb (String.eqb o) (flat_map option_strings ar) then None
  else Some (MkParser pr de (ar ++ [a]) mu dfl su).
Proof.
  intros E. unfold add_argument, conflicting, known_option_strings.
  rewrite E. simpl. rewrite orb_false_r. reflexivity.
Qed.

Lemma add_positional (n h : string) (m : option string) (k : Nargs)
    (pr de : string) (ar : list Argument) (mu : list MutexGroup)
    (dfl : list (string * PyVal))
    (su : option (string * string * list (string * ArgumentParser))) :
  add_argument (positional_argument n h m k) (MkParser pr de ar mu dfl su) =
  Some (MkParser pr de (ar ++ [positional_argument n h m k]) mu dfl su).
Proof. reflexivity. Qed.

Lemma existsb_eqb_snoc (o : string) (ar : list Argument) (a : Argument) :
  existsb (String.eqb o) (flat_map option_strings (ar ++ [a])) =
  existsb (String.eqb o) (flat_map option_strings ar) ||
  existsb (String.eqb o) (option_strings a).
Proof.
  rewrite flat_map_app, existsb_app. simpl. rewrite app_nil_r. reflexivity.
Qed.

(** X4.  Each of the five builders of the module raises exactly when the
    parser it is handed already knows one of the option strings it
    declares; [destroy], [rename] and [list], which declare none, always
    return.  When a builder returns (on a parser that stores no argument
    under 'func'), it has only added to the parser: the arguments and the
    exclusive groups that were there are kept, in order, before the new
    ones; the program name, the description and the subcommands are
    untouched.  The three [stratisd] flags go into one new group and into
    no group that was there before. *)
Theorem builders_only_extend (p : ArgumentParser) :
  Forall (fun a => dest a <> "func") (arguments p) ->
  ((is_Some (build_stratisd_parser p) <->
    Forall (fun o => o ∉ known_option_strings p)
           ["--log-level"; "--redundancy"; "--version"]) /\
   forall p', build_stratisd_parser p = Some p' ->
     arguments p' =
       arguments p ++
       [ flag_argument "--log-level" false "log level of stratisd daemon";
         flag_argument "--redundancy" false
           "redundancy designations understood by stratisd daemon";
         flag_argument "--version" false "version of stratisd daemon" ] /\
     mutex_groups p' =
       mutex_groups p ++
       [MkMutexGroup true ["log_level"; "redundancy"; "version"]]) /\
  ((is_Some (build_create_parser p) <->
    "--redundancy" ∉ known_option_strings p) /\
   forall p', build_create_parser p = Some p' ->
     arguments p' = arguments p ++ [name_arg; device_arg; redundancy_arg] /\
     mutex_groups p' = mutex_groups p) /\
  (is_Some (build_destroy_parser p) /\
   forall p', build_destroy_parser p = Some p' ->
     arguments p' =
       arguments p ++
       [positional_argument "name" "name of pool" None NargsNone] /\
     mutex_groups p' = mutex_groups p) /\
  (is_Some (build_rename_parser p) /\
   forall p', build_rename_parser p = Some p' ->
     arguments p' =
       arguments p ++
       [ positional_argument "current" "current name of pool" None NargsNone;
         positional_argument "new" "desired name" None NargsNone ] /\
     mutex_groups p' = mutex_groups p) /\
  (is_Some (build_list_parser p) /\
   forall p', build_list_parser p = Some p' ->
     arguments p' = arguments p /\ mutex_groups p' = mutex_groups p) /\
  Forall (fun b : Builder =>
            forall p', b p = Some p' ->
              prog p' = prog p /\ description p' = description p /\
              subparsers p' = subparsers p)
         [build_stratisd_parser; build_create_parser; build_destroy_parser;
          build_rename_parser; build_list_parser].
Proof.
  intros H.
  assert (Hne : forall l, Forall (fun a => dest a <> "func") l ->
                          Forall (fun a => dest a <> "func") (arguments p ++ l))
    by (intros l Hl; apply Forall_app_dest; assumption).
  assert (Hstratisd :
    build_stratisd_parser p =
    if existsb (String.eqb "--log-level") (known_option_strings p) then None
    else if existsb (String.eqb "--redundancy") (known_option_strings p)
    then None
    else if existsb (String.eqb "--version") (known_option_strings p)
    then None
    else Some (set_defaults "func" (VFunc "StratisActions.dispatch")
      (MkParser (prog p) (description p)
         (arguments p ++
          [ flag_argument "--log-level" false "log level of stratisd daemon";
            flag_argument "--redundancy" false
              "redundancy designations understood by stratisd daemon";
            flag_argument "--version" false "version of stratisd daemon" ])
         (mutex_groups p ++
          [MkMutexGroup true ["log_level"; "redundancy"; "version"]])
         (defaults p) (subparsers p)))).
  { destruct p as [pr de ar mu dfl su].
    unfold build_stratisd_parser, add_mutually_exclusive_group,
      known_option_strings.
    cbn [arguments prog description mutex_groups defaults subparsers].
    rewrite group_add_flag.
    destruct (existsb (String.eqb "--log-level") (flat_map option_strings ar))
      eqn:E1; [reflexivity|].
    cbn [mbind option_bind]. rewrite group_add_flag, existsb_eqb_snoc.
    destruct (existsb (String.eqb "--redundancy")
                (flat_map option_strings ar)) eqn:E2; [reflexivity|].
    cbn [orb flag_argument option_strings existsb].
    change ("--redundancy" =? "--log-level")%string with false.
    cbn [orb mbind option_bind].
    rewrite group_add_flag, !existsb_eqb_snoc.
    destruct (existsb (String.eqb "--version")
                (flat_map option_strings ar)) eqn:E3; [reflexivity|].
    cbn [orb flag_argument option_strings existsb].
    change ("--version" =? "--log-level")%string with false.
    change ("--version" =? "--redundancy")%string with false.
    cbn [orb mbind option_bind]. f_equal. f_equal. f_equal.
    - rewrite <- !app_assoc. reflexivity.
    - rewrite !alter_at_length. reflexivity. }
  assert (Hcreate :
    build_create_parser p =
    if existsb (String.eqb "--redundancy") (known_option_strings p) then None
    else Some (set_defaults "func" (VFunc "TopActions.create_pool")
      (MkParser (prog p) (description p)
         (arguments p ++ [name_arg; device_arg; redundancy_arg])
         (mutex_groups p) (defaults p) (subparsers p)))).
  { destruct p as [pr de ar mu dfl su].
    unfold build_create_parser, known_option_strings.
    cbn [arguments prog description mutex_groups defaults subparsers].
    rewrite add_positional. cbn [mbind option_bind].
    rewrite add_positional. cbn [mbind option_bind].
    erewrite add_one_option; [|reflexivity].
    rewrite !existsb_eqb_snoc.
    cbn [positional_argument option_strings existsb]. rewrite !orb_false_r.
    destruct (existsb (String.eqb "--redundancy")
                (flat_map option_strings ar)); [reflexivity|].
    cbn [mbind option_bind]. rewrite <- !app_assoc. reflexivity. }
  assert (Hdestroy :
    build_destroy_parser p =
    Some (set_defaults "func" (VFunc "TopActions.destroy_pool")
      (MkParser (prog p) (description p)
         (arguments p ++
          [positional_argument "name" "name of pool" None NargsNone])
         (mutex_groups p) (defaults p) (subparsers p)))) by reflexivity.
  assert (Hrename :
    build_rename_parser p =
    Some (set_defaults "func" (VFunc "TopActions.rename_pool")
      (MkParser (prog p) (description p)
         (arguments p ++
          [ positional_argument "current" "current name of pool" None
              NargsNone;
            positional_argument "new" "desired name" None NargsNone ])
         (mutex_groups p) (defaults p) (subparsers p)))).
  { destruct p as [pr de ar mu dfl su].
    unfold build_rename_parser.
    cbn [arguments prog description mutex_groups defaults subparsers].
    rewrite add_positional. cbn [mbind option_bind].
    rewrite add_positional. cbn [mbind option_bind].
    rewrite <- !app_assoc. reflexivity. }
  split; [|split; [|split; [|split; [|split]]]].
  - rewrite Hstratisd. split.
    + rewrite !Forall_cons, <- !existsb_eqb_elem_of.
      destruct (existsb (String.eqb "--log-level") _);
        [split; [intros [? ?]; discriminate|intros [? _]; exfalso; auto]|].
      destruct (existsb (String.eqb "--redundancy") _);
        [split; [intros [? ?]; discriminate|intros (_ & ? & _); exfalso; auto]|].
      destruct (existsb (String.eqb "--version") _);
        [split; [intros [? ?]; discriminate
                |intros (_ & _ & ? & _); exfalso; auto]|].
      split; [intros _|eexists; reflexivity].
      repeat (split; [discriminate|]). apply Forall_nil_2.
    + intros p' Hp'.
      destruct (existsb (String.eqb "--log-level") _); [discriminate|].
      destruct (existsb (String.eqb "--redundancy") _); [discriminate|].
      destruct (existsb (String.eqb "--version") _); [discriminate|].
      injection Hp' as <-. split; [|reflexivity].
      rewrite set_defaults_arguments; [reflexivity|].
      apply Hne. repeat (constructor; [discriminate|]). constructor.
  - rewrite Hcreate. split.
    + rewrite <- existsb_eqb_elem_of.
      destruct (existsb (String.eqb "--redundancy") _).
      * split; [intros [? ?]; discriminate|intros ?; exfalso; auto].
      * split; [intros _; discriminate|eexists; reflexivity].
    + intros p' Hp'.
      destruct (existsb (String.eqb "--redundancy") _); [discriminate|].
      injection Hp' as <-. split; [|reflexivity].
      rewrite set_defaults_arguments; [reflexivity|].
      apply Hne. repeat (constructor; [discriminate|]). constructor.
  - rewrite Hdestroy. split; [eexists; reflexivity|].
    intros p' [= <-]. split; [|reflexivity].
    rewrite set_defaults_arguments; [reflexivity|].
    apply Hne. repeat (constructor; [discriminate|]). constructor.
  - rewrite Hrename. split; [eexists; reflexivity|].
    intros p' [= <-]. split; [|reflexivity].
    rewrite set_defaults_arguments; [reflexivity|].
    apply Hne. repeat (constructor; [discriminate|]). constructor.
  - unfold build_list_parser. split; [eexists; reflexivity|].
    intros p' [= <-]. split; [|reflexivity].
    apply set_defaults_arguments. exact H.
  - repeat apply Forall_cons_2; try apply Forall_nil_2; intros p' Hp';
      rewrite ?Hstratisd, ?Hcreate, ?Hdestroy, ?Hrename in Hp';
      unfold build_list_parser in Hp';
      repeat match type of Hp' with
             | (if ?c then _ else _) = _ => destruct c; [discriminate|]
             end;
      injection Hp' as <-; repeat split; reflexivity.
Qed.

Lemma builders_only_extend_witness :
  Forall (fun a => dest a <> "func")
         (arguments (subcommand_parser "stratisd" "Information about Stratisd")) /\
  is_Some (build_stratisd_parser
             (subcommand_parser "stratisd" "Information about Stratisd")) /\
  mutex_groups stratisd_parser =
    [MkMutexGroup true ["log_level"; "redundancy"; "version"]].
Proof.
  assert (H : Forall (fun a => dest a <> "func")
                     (arguments (subcommand_parser "stratisd"
                                   "Information about Stratisd")))
    by (repeat (constructor; [discriminate|]); constructor).
  split; [exact H|].
  destruct (builders_only_extend _ H) as ((Hs & Hx) & _).
  split.
  - apply Hs. repeat (constructor; [intros Hin;
      repeat (apply elem_of_cons in Hin as [Hin|Hin]; [discriminate Hin|]);
      inversion Hin|]). constructor.
  - exact (proj2 (Hx stratisd_parser eq_refl)).
Defined.

Lemma take_action_ns (p : ArgumentParser) (a : Argument) (vs : list string)
    (st st' : PState) :
  take_action p a vs st = inl st' ->
  (exists v, ns st' = <[dest a := v]> (ns st)) /\ pending st' = pending st.
Proof.
  unfold take_action.
  destruct (negb (forallb _ vs)); [discriminate|].
  destruct (existsb _ _); [discriminate|].
  destruct (action a); try discriminate.
  - destruct (nargs a).
    + destruct vs as [|v [|v' vs]]; try discriminate.
      intros [= <-]. split; [eexists|]; reflexivity.
    + intros [= <-]. split; [eexists|]; reflexivity.
  - intros [= <-]. split; [eexists|]; reflexivity.
Qed.

Lemma untouched_take_action (p : ArgumentParser) (a : Argument)
    (vs : list string) (st st' : PState) :
  a ∈ arguments p ->
  untouched p st ->
  take_action p a vs st = inl st' ->
  untouched p st'.
Proof.
  intros Ha [Hk Hp] H.
  destruct (take_action_ns p a vs st st' H) as [[v Hn] Hpe].
  split.
  - intros k Hnk. rewrite Hn, lookup_insert_ne; [exact (Hk k Hnk)|].
    intros E. apply Hnk. rewrite <- E.
    apply list_elem_of_fmap. exists a. split; auto.
  - intros b Hb. rewrite Hpe in Hb. exact (Hp b Hb).
Qed.

Lemma untouched_take_actions (p : ArgumentParser)
    (l : list (Argument * list string)) :
  forall st st' : PState,
    Forall (fun av => av.1 ∈ arguments p) l ->
    untouched p st ->
    take_actions p l st = inl st' ->
    untouched p st'.
Proof.
  induction l as [|[a vs] l IH]; intros st st' Hl Hu H; simpl in H.
  - injection H as <-. exact Hu.
  - apply Forall_cons in Hl as [Ha Hl]. simpl in Ha.
    destruct (take_action p a vs st) as [st1|r] eqn:Ht; [|discriminate].
    exact (IH st1 st' Hl (untouched_take_action p a vs st st1 Ha Hu Ht) H).
Qed.

Lemma distribute_args (ps : list Argument) :
  forall run : list string, (distribute ps run).1.*1 = ps.
Proof.
  induction ps as [|a ps IH]; intros run; simpl; [reflexivity|].
  specialize (IH (drop (match nargs a with
                        | NargsNone => 1%nat
                        | NargsPlus => (length run - length ps)%nat
                        end) run)).
  destruct (distribute ps _) as [r lo]. simpl in *. f_equal. exact IH.
Qed.

Lemma untouched_consume_positionals (p : ArgumentParser) (run : list string)
    (st st' : PState) :
  untouched p st ->
  consume_positionals p run st = inl st' ->
  untouched p st'.
Proof.
  intros [Hk Hp] H. unfold consume_positionals in H.
  pose proof (distribute_args
                (take (length (pending st) `min` length run) (pending st)) run)
    as Hd.
  destruct (distribute _ run) as [assigned leftover]. simpl in Hd.
  refine (untouched_take_actions p assigned _ st' _ _ H).
  - apply Forall_forall. intros [a vs] Hin. simpl.
    apply Hp. apply (subseteq_take (length (pending st) `min` length run)).
    rewrite <- Hd. apply list_elem_of_fmap. exists (a, vs). split; auto.
  - split; [exact Hk|]. simpl. intros a Ha.
    apply Hp. exact (subseteq_drop _ _ _ Ha).
Qed.

Lemma untouched_consume (p : ArgumentParser) (segs : list Seg) :
  forall (ex : option Argument) (st st' : PState),
    segs_of p segs ->
    match ex with Some a => a ∈ arguments p | None => True end ->
    untouched p st ->
    consume p segs ex st = inl st' ->
    untouched p st'.
Proof.
  induction segs as [|seg segs IH]; intros ex st st' Hs Hex Hu H; simpl in H.
  - destruct ex; [discriminate|]. injection H as <-. exact Hu.
  - apply Forall_cons in Hs as [Hseg Hs].
    destruct seg as [run|oa e raw].
    + destruct ex as [a|].
      * destruct run as [|v r]; [discriminate|].
        destruct (take_action p a [v] st) as [st1|r1] eqn:Ht; [|discriminate].
        destruct (consume_positionals p r st1) as [st2|r2] eqn:Hc;
          [|discriminate].
        refine (IH None st2 st' Hs I _ H).
        apply (untouched_consume_positionals p r st1 st2); [|exact Hc].
        exact (untouched_take_action p a [v] st st1 Hex Hu Ht).
      * destruct (consume_positionals p run st) as [st2|r2] eqn:Hc;
          [|discriminate].
        refine (IH None st2 st' Hs I _ H).
        exact (untouched_consume_positionals p run st st2 Hu Hc).
    + destruct ex as [a0|]; [discriminate|].
      destruct oa as [a|].
      * destruct e as [x|].
        -- destruct (arity a =? 1)%nat; [|discriminate].
           destruct (take_action p a [x] st) as [st1|r1] eqn:Ht;
             [|discriminate].
           refine (IH None st1 st' Hs I _ H).
           exact (untouched_take_action p a [x] st st1 Hseg Hu Ht).
        -- destruct (arity a =? 0)%nat.
           ++ destruct (take_action p a [] st) as [st1|r1] eqn:Ht;
                [|discriminate].
              refine (IH None st1 st' Hs I _ H).
              exact (untouched_take_action p a [] st st1 Hseg Hu Ht).
           ++ exact (IH (Some a) st st' Hs Hseg Hu H).
      * assert (H' : consume p segs None
                       (MkPState (ns st) (seen st) (seen_non_default st)
                                 (pending st) (extras st ++ [raw])) = inl st')
          by (destruct e; exact H).
        refine (IH None _ st' Hs I _ H'). exact Hu.
Qed.

Lemma finish_ns (p : ArgumentParser) (st : PState) (n : gmap string PyVal) :
  finish p st = ParseOk n -> n = ns st.
Proof.
  unfold finish.
  destruct (existsb _ (arguments p)); [discriminate|].
  destruct (existsb _ (mutex_groups p)); [discriminate|].
  destruct (negb _); [discriminate|].
  intros [= <-]. reflexivity.
Qed.

Lemma parse_keeps_other_keys (p : ArgumentParser) (argv : list string)
    (n : gmap string PyVal) (k : string) :
  parse_args p argv = Some (ParseOk n) ->
  k ∉ dest <$> arguments p ->
  n !! k = initial_namespace p !! k.
Proof.
  unfold parse_args. intros H Hk.
  destruct (subparsers p); [discriminate|].
  destruct (classify_all p argv) as [[e|ts]|] eqn:Hc; try discriminate.
  destruct (consume p (segments ts) None _) as [st|r] eqn:Hcs.
  - injection H as H. rewrite (finish_ns p st n H).
    assert (Hu : untouched p st).
    { refine (untouched_consume p (segments ts) None _ st _ I _ Hcs).
      - apply segments_segs_of, (classify_all_tok_of _ argv). exact Hc.
      - split; [reflexivity|]. simpl. intros a Ha.
        apply list_elem_of_In in Ha. apply List.filter_In in Ha as [Ha _].
        apply list_elem_of_In. exact Ha. }
    exact (proj1 Hu k Hk).
  - injection H as ->. exfalso. exact (consume_not_ok _ _ _ _ _ Hcs n eq_refl).
Qed.

Ltac not_a_dest :=
  let H := fresh in
  intros H; simpl in H;
  repeat (apply elem_of_cons in H as [H|H]; [discriminate H|]);
  inversion H.

(** X5.  Each of the five builders returns on a new subcommand parser,
    whatever its name and description.  Whatever subcommand parser one of
    the five builders has filled in, and whatever the command line, a
    successful parse leaves under [func] the action that builder bound: no
    argument and no option can displace it. *)
Theorem action_survives_parsing (name d : string) (argv : list string)
    (n : gmap string PyVal) :
  Forall (fun b : Builder =>
            b (subcommand_parser name d) =
            Some (built b (subcommand_parser name d)))
         [build_destroy_parser; build_rename_parser; build_list_parser;
          build_create_parser; build_stratisd_parser] /\
  (parse_args (built build_destroy_parser (subcommand_parser name d)) argv =
     Some (ParseOk n) ->
   n !! "func" = Some (VFunc "TopActions.destroy_pool")) /\
  (parse_args (built build_rename_parser (subcommand_parser name d)) argv =
     Some (ParseOk n) ->
   n !! "func" = Some (VFunc "TopActions.rename_pool")) /\
  (parse_args (built build_list_parser (subcommand_parser name d)) argv =
     Some (ParseOk n) ->
   n !! "func" = Some (VFunc "TopActions.list_pools")) /\
  (parse_args (built build_create_parser (subcommand_parser name d)) argv =
     Some (ParseOk n) ->
   n !! "func" = Some (VFunc "TopActions.create_pool")) /\
  (parse_args (built build_stratisd_parser (subcommand_parser name d)) argv =
     Some (ParseOk n) ->
   n !! "func" = Some (VFunc "StratisActions.dispatch")).
Proof.
  split.
  { repeat (apply Forall_cons_2; [reflexivity|]). apply Forall_nil_2. }
  repeat split; intros H;
    rewrite (parse_keeps_other_keys _ argv n "func" H) by not_a_dest;
    reflexivity.
Qed.

Lemma parse_plain_run (p : ArgumentParser) (s : string) (l : list string) :
  subparsers p = None ->
  Forall plain (s :: l) ->
  parse_args p (s :: l) =
  match consume_positionals p (s :: l)
          (MkPState (initial_namespace p) [] []
                    (List.filter is_positional (arguments p)) []) with
  | inl st => Some (finish p st)
  | inr res => Some res
  end.
Proof.
  intros Hs Hp. unfold parse_args. rewrite Hs.
  rewrite (classify_all_plain p (s :: l) Hp), segments_plain. simpl.
  destruct (consume_positionals p (s :: l) _); reflexivity.
Qed.

(** X6.  [destroy] takes exactly one pool name: one name parses and is
    stored under [name]; no name is a usage error, and so are two or more
    names. *)
Theorem destroy_takes_one_name :
  (forall name : string,
     plain name ->
     parse_args destroy_parser [name] =
     Some (ParseOk (<["name" := VStr name]> (initial_namespace destroy_parser)))) /\
  parse_args destroy_parser [] =
    Some (ParseError "the following arguments are required") /\
  (forall (n1 n2 : string) (rest : list string),
     plain n1 -> plain n2 -> Forall plain rest ->
     parse_args destroy_parser (n1 :: n2 :: rest) =
     Some (ParseError "unrecognized arguments")).
Proof.
  split; [|split; [reflexivity|]].
  - intros name Hn.
    rewrite parse_plain_run by (try reflexivity; repeat constructor; assumption).
    reflexivity.
  - intros n1 n2 rest H1 H2 Hr.
    rewrite parse_plain_run by (try reflexivity; repeat constructor; assumption).
    reflexivity.
Qed.

(** X7.  [rename] takes exactly two names, stored in order under [current]
    and [new]: fewer is a usage error, and so is a third. *)
Theorem rename_takes_two_names :
  (forall current new : string,
     plain current -> plain new ->
     parse_args rename_parser [current; new] =
     Some (ParseOk (<["new" := VStr new]>
                      (<["current" := VStr current]>
                         (initial_namespace rename_parser))))) /\
  parse_args rename_parser [] =
    Some (ParseError "the following arguments are required") /\
  (forall current : string,
     plain current ->
     parse_args rename_parser [current] =
     Some (ParseError "the following arguments are required")) /\
  (forall (current new extra : string) (rest : list string),
     plain current -> plain new -> plain extra -> Forall plain rest ->
     parse_args rename_parser (current :: new :: extra :: rest) =
     Some (ParseError "unrecognized arguments")).
Proof.
  split; [|split; [reflexivity|split]].
  - intros c n Hc Hn.
    rewrite parse_plain_run by (try reflexivity; repeat constructor; assumption).
    reflexivity.
  - intros c Hc.
    rewrite parse_plain_run by (try reflexivity; repeat constructor; assumption).
    reflexivity.
  - intros c n x rest Hc Hn Hx Hr.
    rewrite parse_plain_run by (try reflexivity; repeat constructor; assumption).
    reflexivity.
Qed.

(** X8.  [list] takes no argument: the empty command line parses to the
    namespace holding only the bound action, and any positional string is a
    usage error. *)
Theorem list_takes_no_argument :
  parse_args list_parser [] =
    Some (ParseOk {[ "func" := VFunc "TopActions.list_pools" ]}) /\
  (forall (x : string) (rest : list string),
     plain x -> Forall plain rest ->
     parse_args list_parser (x :: rest) =
     Some (ParseError "unrecognized arguments")).
Proof.
  split; [reflexivity|].
  intros x rest Hx Hr.
  rewrite parse_plain_run by (try reflexivity; repeat constructor; assumption).
  reflexivity.
Qed.

(** X9.  The call on the bus tells which use of the wrapper made it: two
    uses of a wrapper that put the same call on the bus are the same
    operation with the same arguments, or the same property. *)
Theorem call_identifies_member (o : string) (m1 m2 : ManagerMember) :
  call_of_member o m1 = call_of_member o m2 -> m1 = m2.
Proof.
  destruct m1 as [op1| |], m2 as [op2| |]; simpl; intros H;
    try discriminate H; try reflexivity.
  destruct op1, op2; simpl in H; try discriminate H; try reflexivity;
    injection H; intros; subst; reflexivity.
Qed.

Lemma call_identifies_member_witness :
  call_of_member "/org/storage/stratis1" (Method (OpDestroyPool (VStr "p"))) =
  call_of_member "/org/storage/stratis1" (Method (OpDestroyPool (VStr "p"))) /\
  Method (OpDestroyPool (VStr "p")) = Method (OpDestroyPool (VStr "p")).
Proof.
  split; [reflexivity|].
  apply (call_identifies_member "/org/storage/stratis1"). reflexivity.
Defined.

(** ** Invariants of the parsing loop, in general *)

Lemma find_option_optional (p : ArgumentParser) (o : string) (a : Argument) :
  find_option p o = Some a -> a ∈ arguments p /\ is_positional a = false.
Proof.
  intros H. split; [exact (find_option_in p o a H)|].
  unfold find_option in H. apply List.find_some in H as [_ H].
  apply bool_decide_eq_true in H.
  unfold is_positional. apply bool_decide_eq_false. intros E.
  rewrite E in H. inversion H.
Qed.

Lemma option_tuples_optional (p : ArgumentParser) (o : string)
    (a : Argument) :
  In a (option_tuples p o) -> a ∈ arguments p /\ is_positional a = false.
Proof.
  intros H. split; [exact (option_tuples_in p o a H)|].
  unfold option_tuples in H.
  apply in_flat_map in H as (x & _ & Ha).
  apply in_map_iff in Ha as (s & <- & Hs).
  apply List.filter_In in Hs as [Hs _].
  unfold is_positional. apply bool_decide_eq_false. intros E.
  rewrite E in Hs. exact Hs.
Qed.

Lemma classify_tok_from (p : ArgumentParser) (s : string) (t : Tok) :
  classify p s = Some (inr t) -> tok_from p s t.
Proof.
  unfold classify. destruct s as [|c s']; [intros [= <-]; reflexivity|].
  destruct (negb (Ascii.eqb c "-")); [intros [= <-]; reflexivity|].
  destruct (String.eqb (String c s') "--"); [discriminate|].
  destruct (find_option p (String c s')) as [a|] eqn:Hf.
  { intros [= <-]. simpl. exact (find_option_optional _ _ _ Hf). }
  destruct (String.eqb (String c s') "-"); [intros [= <-]; reflexivity|].
  destruct (negb (String.prefix "--" (String c s'))); [discriminate|].
  destruct (split_eq (String c s')) as [o e].
  destruct (match e with Some _ => find_option p o | None => None end)
    as [a|] eqn:Hf'.
  { intros [= <-]. simpl. destruct e; [|discriminate].
    exact (find_option_optional _ _ _ Hf'). }
  destruct (option_tuples p o) as [|a [|a' l]] eqn:Ho.
  - destruct (contains_char " " (String c s')); intros [= <-];
      [reflexivity|exact I].
  - intros [= <-]. simpl. apply (option_tuples_optional p o). rewrite Ho.
    left. reflexivity.
  - discriminate.
Qed.

Lemma segments_cons_from (p : ArgumentParser) (argv : list string)
    (s : string) (t : Tok) (ts : list Tok) :
  s ∈ argv -> tok_from p s t ->
  segs_from p argv (segments ts) -> segs_from p argv (segments (t :: ts)).
Proof.
  unfold segs_from. intros Hs Ht IH. simpl.
  destruct t as [s'|a e raw].
  - simpl in Ht. subst s'.
    destruct (segments ts) as [|[r|a e raw] segs].
    + constructor; [|constructor]. constructor; [exact Hs|constructor].
    + apply Forall_cons in IH as [Hr IH].
      constructor; [|exact IH]. constructor; [exact Hs|exact Hr].
    + constructor; [|exact IH]. constructor; [exact Hs|constructor].
  - constructor; [|exact IH]. destruct a; exact Ht.
Qed.

Lemma classify_all_segs_from (p : ArgumentParser) (argv : list string)
    (ts : list Tok) :
  classify_all p argv = Some (inr ts) -> segs_from p argv (segments ts).
Proof.
  assert (G : forall (l : list string) (ts : list Tok),
            (forall s, s ∈ l -> s ∈ argv) ->
            classify_all p l = Some (inr ts) ->
            segs_from p argv (segments ts)).
  { induction l as [|s l IH]; simpl; intros ts0 Hl.
    - intros [= <-]. constructor.
    - destruct (classify p s) as [[e|t]|] eqn:Hc;
        destruct (classify_all p l) as [[e'|ts']|]; try discriminate.
      intros [= <-].
      apply (segments_cons_from p argv s t ts').
      + apply Hl. left.
      + exact (classify_tok_from p s t Hc).
      + apply IH; [|reflexivity]. intros s0 Hs0. apply Hl. right. exact Hs0. }
  apply G. auto.
Qed.

Lemma distribute_values (ps : list Argument) :
  forall run : list string,
    Forall (fun av : Argument * list string =>
              Forall (fun v => v ∈ run) av.2) (distribute ps run).1.
Proof.
  induction ps as [|a ps IH]; intros run; simpl; [constructor|].
  set (k := match nargs a with
            | NargsNone => 1%nat
            | NargsPlus => (length run - length ps)%nat
            end).
  specialize (IH (drop k run)).
  destruct (distribute ps (drop k run)) as [r lo]. simpl in *.
  constructor.
  - simpl. apply Forall_forall. intros v Hv.
    exact (subseteq_take k run v Hv).
  - apply (Forall_impl _ _ _ IH). intros av Hav.
    apply (Forall_impl _ _ _ Hav).
    intros v Hv. exact (subseteq_drop k run v Hv).
Qed.

Section ConsumeInvariant.

Variable p : ArgumentParser.
Variable argv : list string.
Variable Inv : PState -> Prop.

Hypothesis Inv_take_action :
  forall (a : Argument) (vs : list string) (st st' : PState),
    a ∈ arguments p ->
    (is_positional a = true -> Forall (fun v => v ∈ argv) vs) ->
    Inv st -> take_action p a vs st = inl st' -> Inv st'.

Hypothesis Inv_frame :
  forall (st : PState) (pend : list Argument) (ext : list string),
    Inv st ->
    Inv (MkPState (ns st) (seen st) (seen_non_default st) pend ext).

Lemma inv_take_action_pending (a : Argument) (vs : list string)
    (st st' : PState) :
  a ∈ arguments p ->
  (is_positional a = true -> Forall (fun v => v ∈ argv) vs) ->
  Inv st /\ (forall b, b ∈ pending st -> b ∈ arguments p) ->
  take_action p a vs st = inl st' ->
  Inv st' /\ (forall b, b ∈ pending st' -> b ∈ arguments p).
Proof.
  intros Ha Hvs [Hi Hp] H.
  split; [exact (Inv_take_action a vs st st' Ha Hvs Hi H)|].
  destruct (take_action_ns p a vs st st' H) as [_ E]. rewrite E. exact Hp.
Qed.

Lemma inv_take_actions (l : list (Argument * list string)) :
  forall st st' : PState,
    Forall (fun av : Argument * list string =>
              av.1 ∈ arguments p /\ Forall (fun v => v ∈ argv) av.2) l ->
    Inv st /\ (forall b, b ∈ pending st -> b ∈ arguments p) ->
    take_actions p l st = inl st' ->
    Inv st' /\ (forall b, b ∈ pending st' -> b ∈ arguments p).
Proof.
  induction l as [|[a vs] l IH]; intros st st' Hl Hu H; simpl in H.
  - injection H as <-. exact Hu.
  - apply Forall_cons in Hl as [[Ha Hvs] Hl]. simpl in Ha, Hvs.
    destruct (take_action p a vs st) as [st1|r] eqn:Ht; [|discriminate].
    exact (IH st1 st' Hl
             (inv_take_action_pending a vs st st1 Ha (fun _ => Hvs) Hu Ht) H).
Qed.

Lemma inv_consume_positionals (run : list string) (st st' : PState) :
  Forall (fun v => v ∈ argv) run ->
  Inv st /\ (forall b, b ∈ pending st -> b ∈ arguments p) ->
  consume_positionals p run st = inl st' ->
  Inv st' /\ (forall b, b ∈ pending st' -> b ∈ arguments p).
Proof.
  intros Hrun [Hi Hp] H. unfold consume_positionals in H.
  pose proof (distribute_args
                (take (length (pending st) `min` length run) (pending st)) run)
    as Hd.
  pose proof (distribute_values
                (take (length (pending st) `min` length run) (pending st)) run)
    as Hv.
  destruct (distribute _ run) as [assigned leftover]. simpl in Hd, Hv.
  refine (inv_take_actions assigned _ st' _ _ H).
  - apply Forall_forall. intros [a vs] Hin. simpl. split.
    + apply Hp.
      apply (subseteq_take (length (pending st) `min` length run)).
      rewrite <- Hd. apply list_elem_of_fmap. exists (a, vs). split; auto.
    + rewrite Forall_forall in Hv. specialize (Hv (a, vs) Hin). simpl in Hv.
      apply (Forall_impl _ _ _ Hv). intros v Hin'.
      rewrite Forall_forall in Hrun. exact (Hrun v Hin').
  - split; [apply Inv_frame; exact Hi|]. simpl. intros a Ha.
    apply Hp. exact (subseteq_drop _ _ _ Ha).
Qed.

Lemma inv_consume (segs : list Seg) :
  forall (ex : option Argument) (st st' : PState),
    segs_from p argv segs ->
    match ex with Some a => a ∈ arguments p | None => True end ->
    Inv st /\ (forall b, b ∈ pending st -> b ∈ arguments p) ->
    consume p segs ex st = inl st' ->
    Inv st' /\ (forall b, b ∈ pending st' -> b ∈ arguments p).
Proof.
  induction segs as [|seg segs IH]; intros ex st st' Hs Hex Hu H; simpl in H.
  - destruct ex; [discriminate|]. injection H as <-. exact Hu.
  - apply Forall_cons in Hs as [Hseg Hs].
    destruct seg as [run|oa e raw].
    + destruct ex as [a|].
      * destruct run as [|v r]; [discriminate|].
        apply Forall_cons in Hseg as [Hv Hr].
        destruct (take_action p a [v] st) as [st1|r1] eqn:Ht; [|discriminate].
        destruct (consume_positionals p r st1) as [st2|r2] eqn:Hc;
          [|discriminate].
        refine (IH None st2 st' Hs I _ H).
        apply (inv_consume_positionals r st1 st2 Hr); [|exact Hc].
        refine (inv_take_action_pending a [v] st st1 Hex _ Hu Ht).
        intros _. constructor; [exact Hv|constructor].
      * destruct (consume_positionals p run st) as [st2|r2] eqn:Hc;
          [|discriminate].
        refine (IH None st2 st' Hs I _ H).
        exact (inv_consume_positionals run st st2 Hseg Hu Hc).
    + destruct ex as [a0|]; [discriminate|].
      destruct oa as [a|].
      * destruct Hseg as [Ha Hopt].
        destruct e as [x|].
        -- destruct (arity a =? 1)%nat; [|discriminate].
           destruct (take_action p a [x] st) as [st1|r1] eqn:Ht;
             [|discriminate].
           refine (IH None st1 st' Hs I _ H).
           refine (inv_take_action_pending a [x] st st1 Ha _ Hu Ht).
           intros E. rewrite E in Hopt. discriminate.
        -- destruct (arity a =? 0)%nat.
           ++ destruct (take_action p a [] st) as [st1|r1] eqn:Ht;
                [|discriminate].
              refine (IH None st1 st' Hs I _ H).
              refine (inv_take_action_pending a [] st st1 Ha _ Hu Ht).
              intros _. constructor.
           ++ exact (IH (Some a) st st' Hs Ha Hu H).
      * assert (H' : consume p segs None
                       (MkPState (ns st) (seen st) (seen_non_default st)
                                 (pending st) (extras st ++ [raw])) = inl st')
          by (destruct e; exact H).
        refine (IH None _ st' Hs I _ H').
        destruct Hu as [Hi Hp]. split; [apply Inv_frame; exact Hi|exact Hp].
Qed.

Lemma inv_parse_args (n : gmap string PyVal) :
  Inv (MkPState (initial_namespace p) [] []
                (List.filter is_positional (arguments p)) []) ->
  parse_args p argv = Some (ParseOk n) ->
  exists st, Inv st /\ finish p st = ParseOk n.
Proof.
  unfold parse_args. intros H0 H.
  destruct (subparsers p); [discriminate|].
  destruct (classify_all p argv) as [[e|ts]|] eqn:Hc; try discriminate.
  destruct (consume p (segments ts) None _) as [st|r] eqn:Hcs.
  - injection H as H. exists st. split; [|exact H].
    refine (proj1 (inv_consume (segments ts) None _ st _ I _ Hcs)).
    + exact (classify_all_segs_from p argv ts Hc).
    + split; [exact H0|]. simpl. intros a Ha.
      apply list_elem_of_In in Ha. apply List.filter_In in Ha as [Ha _].
      apply list_elem_of_In. exact Ha.
  - injection H as ->. exfalso. exact (consume_not_ok _ _ _ _ _ Hcs n eq_refl).
Qed.

End ConsumeInvariant.

Lemma take_action_stored_from (p : ArgumentParser) (argv : list string)
    (a : Argument) (vs : list string) (st st' : PState) :
  Forall (fun v => v ∈ argv) vs ->
  take_action p a vs st = inl st' ->
  exists v, ns st' = <[dest a := v]> (ns st) /\
            seen st' = dest a :: seen st /\ stored_from argv a (Some v).
Proof.
  unfold take_action, stored_from. intros Hvs.
  destruct (negb (forallb _ vs)); [discriminate|].
  destruct (existsb _ _); [discriminate|].
  destruct (action a); try discriminate.
  - destruct (nargs a).
    + destruct vs as [|v [|v' vs]]; try discriminate.
      intros [= <-]. eexists. repeat split. exists v. split; [reflexivity|].
      apply Forall_cons in Hvs as [Hv _]. exact Hv.
    + intros [= <-]. eexists. repeat split. exists vs. split; [reflexivity|].
      exact Hvs.
  - intros [= <-]. eexists. repeat split.
Qed.

Lemma placed_take_action (p : ArgumentParser) (argv : list string) :
  NoDup (dest <$> arguments p) ->
  forall (a : Argument) (vs : list string) (st st' : PState),
    a ∈ arguments p ->
    (is_positional a = true -> Forall (fun v => v ∈ argv) vs) ->
    placed p argv st -> take_action p a vs st = inl st' ->
    placed p argv st'.
Proof.
  intros Hnd a vs st st' Ha Hvs Hf H.
  destruct (take_action_ns p a vs st st' H) as [[v Hn] _].
  intros b Hb Hpos Hin. rewrite Hn.
  destruct (decide (dest a = dest b)) as [E|Hne].
  - assert (a = b) as <- by exact (NoDup_fmap_eq dest _ a b Hnd Ha Hb E).
    destruct (take_action_stored_from p argv a vs st st' (Hvs Hpos) H)
      as (v' & Hn' & _ & Hst).
    rewrite lookup_insert_eq.
    assert (Some v = Some v') as ->.
    { rewrite <- (lookup_insert_eq (ns st) (dest a) v), <- Hn, Hn'.
      apply lookup_insert_eq. }
    exact Hst.
  - rewrite lookup_insert_ne by exact Hne.
    apply Hf; [exact Hb|exact Hpos|].
    unfold take_action in H.
    destruct (negb (forallb _ vs)); [discriminate|].
    destruct (existsb _ _); [discriminate|].
    assert (Hs : seen st' = dest a :: seen st).
    { destruct (action a); try discriminate.
      - destruct (nargs a).
        + destruct vs as [|v0 [|v1 vs]]; try discriminate.
          injection H as <-. reflexivity.
        + injection H as <-. reflexivity.
      - injection H as <-. reflexivity. }
    rewrite Hs in Hin.
    apply elem_of_cons in Hin as [E|Hin]; [congruence|exact Hin].
Qed.

Lemma placed_parse_args (p : ArgumentParser) (argv : list string)
    (n : gmap string PyVal) (a : Argument) :
  NoDup (dest <$> arguments p) ->
  parse_args p argv = Some (ParseOk n) ->
  a ∈ arguments p ->
  is_positional a = true ->
  stored_from argv a (n !! dest a).
Proof.
  intros Hnd H Ha Hpos.
  destruct (inv_parse_args p argv (placed p argv)
              (placed_take_action p argv Hnd)
              (fun st pend ext Hf => Hf) n) as (st & Hf & Hfin).
  - intros b _ _ Hin. inversion Hin.
  - exact H.
  - rewrite (finish_ns p st n Hfin). apply Hf; [exact Ha|exact Hpos|].
    unfold finish in Hfin.
    destruct (existsb _ (arguments p)) eqn:Ex; [discriminate|].
    destruct (decide (dest a ∈ seen st)) as [Hin|Hnin]; [exact Hin|].
    exfalso.
    assert (Et : existsb (fun a0 => is_positional a0 &&
                            negb (bool_decide (dest a0 ∈ seen st)))
                         (arguments p) = true).
    { apply existsb_exists. exists a. split.
      - apply list_elem_of_In. exact Ha.
      - rewrite Hpos, (bool_decide_eq_false_2 _ Hnin). reflexivity. }
    rewrite Et in Ex. discriminate.
Qed.

(** X10.  Whatever the command line, options included: when [destroy]
    parses, the string stored under [name] is one of the strings of the
    command line; when [rename] parses, so are the strings stored under
    [current] and [new]; when [create] parses, so are the string stored
    under [name] and every string of the list stored under [device]. *)
Theorem positional_names_filled (argv : list string) (n : gmap string PyVal) :
  (parse_args destroy_parser argv = Some (ParseOk n) ->
   exists s, n !! "name" = Some (VStr s) /\ s ∈ argv) /\
  (parse_args rename_parser argv = Some (ParseOk n) ->
   exists c s, n !! "current" = Some (VStr c) /\ n !! "new" = Some (VStr s) /\
               c ∈ argv /\ s ∈ argv) /\
  (parse_args create_parser argv = Some (ParseOk n) ->
   exists s ds, n !! "name" = Some (VStr s) /\
                n !! "device" = Some (VList (map VStr ds)) /\
                s ∈ argv /\ Forall (fun d => d ∈ argv) ds).
Proof.
  split; [|split]; intros H.
  - refine (placed_parse_args destroy_parser argv n
              (positional_argument "name" "name of pool" None NargsNone)
              _ H _ eq_refl).
    + apply (bool_decide_unpack _). vm_compute. exact I.
    + apply list_elem_of_In. right. left. reflexivity.
  - assert (Hnd : NoDup (dest <$> arguments rename_parser))
      by (apply (bool_decide_unpack _); vm_compute; exact I).
    destruct (placed_parse_args rename_parser argv n
                (positional_argument "current" "current name of pool" None
                                     NargsNone) Hnd H) as (c & Hc & Hcin);
      [apply list_elem_of_In; right; left; reflexivity|reflexivity|].
    destruct (placed_parse_args rename_parser argv n
                (positional_argument "new" "desired name" None NargsNone)
                Hnd H) as (s & Hs & Hsin);
      [apply list_elem_of_In; right; right; left; reflexivity|reflexivity|].
    exists c, s. repeat split; assumption.
  - assert (Hnd : NoDup (dest <$> arguments create_parser))
      by (apply (bool_decide_unpack _); vm_compute; exact I).
    destruct (placed_parse_args create_parser argv n name_arg Hnd H)
      as (s & Hs & Hsin);
      [apply list_elem_of_In; right; left; reflexivity|reflexivity|].
    destruct (placed_parse_args create_parser argv n device_arg Hnd H)
      as (ds & Hds & Hdin);
      [apply list_elem_of_In; right; right; left; reflexivity|reflexivity|].
    exists s, ds. repeat split; assumption.
Qed.
